(** * net_diag_tool.py: a shallow embedding and its checked properties

    The tool resolves a host name, pings it, scans TCP ports with
    [connect_ex] and runs traceroute.  Everything it does is I/O, so the
    embedding is a state-and-exception monad over a [World] that holds the
    one piece of mutable process state the script touches (the socket
    module's default timeout) and the chronological list of the external
    events the run produced.  The operating system, the network and the
    Python library calls the script delegates to are an [Env] of oracles;
    each oracle sees the events so far, so that an answer may change from
    one call to the next. *)

From Stdlib Require Import ZArith List String Ascii Bool Lia DecimalString.
From Stdlib Require Import DecimalPos DecimalZ.
Import ListNotations.
Open Scope string_scope.
Open Scope Z_scope.

(** ** Exceptions and results *)

(** The exception classes that occur in the script, in an [except] clause
    or raised by an expression of it.  [OtherError] stands for any other
    class an external call may raise. *)
Inductive exn : Type :=
| gaierror
| CalledProcessError
| FileNotFoundError
| ValueError (literal : string)
| OverflowError
| SystemExit (code : Z)
| OtherError (name : string).

Inductive result (A : Type) : Type :=
| Ok (a : A)
| Raise (e : exn).
Arguments Ok {A} a.
Arguments Raise {A} e.

(** ** The Python built-ins the script uses *)

Module Py.

(** [s.split(sep)] for a one-character separator: never the empty list. *)
Fixpoint split (sep : ascii) (s : string) : list string :=
  match s with
  | EmptyString => [EmptyString]
  | String c s' =>
      if Ascii.eqb c sep then EmptyString :: split sep s'
      else match split sep s' with
           | f :: fs => String c f :: fs
           | [] => [String c EmptyString]
           end
  end.

(** White space as [int] strips it from an ASCII string: TAB, LF, VT,
    FF, CR and the space. *)
Definition is_space (c : ascii) : bool :=
  let n := Z.of_nat (nat_of_ascii c) in
  ((9 <=? n) && (n <=? 13)) || (n =? 32).

Definition is_digit (c : ascii) : bool :=
  let n := Z.of_nat (nat_of_ascii c) in (48 <=? n) && (n <=? 57).

Definition digit_val (c : ascii) : Z := Z.of_nat (nat_of_ascii c) - 48.

Fixpoint lstrip (cs : list ascii) : list ascii :=
  match cs with
  | c :: cs' => if is_space c then lstrip cs' else cs
  | [] => []
  end.

Definition strip (cs : list ascii) : list ascii :=
  rev (lstrip (rev (lstrip cs))).

(** Decimal digits, with single underscores allowed between two digits. *)
Fixpoint int_digits (acc : Z) (prev_underscore : bool) (cs : list ascii)
  : option Z :=
  match cs with
  | [] => if prev_underscore then None else Some acc
  | c :: cs' =>
      if is_digit c then int_digits (10 * acc + digit_val c) false cs'
      else if Ascii.eqb c "_" then
             if prev_underscore then None else int_digits acc true cs'
      else None
  end.

Definition int_body (cs : list ascii) : option Z :=
  match cs with
  | c :: _ => if is_digit c then int_digits 0 false cs else None
  | [] => None
  end.

(** [s.isascii()]. *)
Definition isascii (s : string) : bool :=
  forallb (fun c => (nat_of_ascii c <? 128)%nat) (list_ascii_of_string s).

(** The entries on which [int] below is exactly Python's: ASCII, and at
    most 640 characters long, which keeps their digits within every
    limit [sys.set_int_max_str_digits] accepts. *)
Definition plain (s : string) : bool :=
  isascii s && (String.length s <=? 640)%nat.

(** [int(s)] on a [plain] string: optional surrounding white space, an
    optional sign, then the digits; anything else is a [ValueError].
    Outside the [plain] strings Python differs: it also reads non-ASCII
    decimal digits and strips non-ASCII white space, and from 3.11 on it
    refuses more digits than the interpreter's limit.  The statements
    below that depend on what a port string reads as carry [plain] as a
    hypothesis on its entries. *)
Definition int (s : string) : result Z :=
  let body := strip (list_ascii_of_string s) in
  let '(neg, ds) :=
    match body with
    | "+"%char :: r => (false, r)
    | "-"%char :: r => (true, r)
    | _ => (false, body)
    end in
  match int_body ds with
  | Some n => Ok (if neg then - n else n)
  | None => Raise (ValueError s)
  end.

(** [str(n)] for an integer. *)
Definition str (n : Z) : string := NilZero.string_of_int (Z.to_int n).

Definition lower_char (c : ascii) : ascii :=
  let n := nat_of_ascii c in
  if ((65 <=? n) && (n <=? 90))%nat then ascii_of_nat (n + 32) else c.

(** [s.lower()] on ASCII. *)
Fixpoint lower (s : string) : string :=
  match s with
  | EmptyString => EmptyString
  | String c s' => String (lower_char c) (lower s')
  end.

(** [s.startswith(prefix)]. *)
Fixpoint startswith (prefix s : string) : bool :=
  match prefix with
  | EmptyString => true
  | String a prefix' =>
      match s with
      | EmptyString => false
      | String b s' => Ascii.eqb a b && startswith prefix' s'
      end
  end.

(** [sep.join(xs)]. *)
Definition join (sep : string) (xs : list string) : string :=
  String.concat sep xs.

(** A list comprehension [[f(x) for x in xs]] whose body may raise: the
    first exception ends it. *)
Fixpoint comprehension {A B : Type} (f : A -> result B) (xs : list A)
  : result (list B) :=
  match xs with
  | [] => Ok []
  | x :: xs' =>
      match f x with
      | Raise e => Raise e
      | Ok y =>
          match comprehension f xs' with
          | Raise e => Raise e
          | Ok ys => Ok (y :: ys)
          end
      end
  end.

End Py.

(** ** Events, world and the collaborators *)

(** What a run does to the outside, in the order it does it.  A call of an
    external collaborator is recorded with its answer. *)
Inductive event : Type :=
| Stdout (text : string)
| Stderr (text : string)
| Gethostbyname (hostname : string) (answer : result string)
| SocketNew (timeout : option Z)
| SetDefaultTimeout (seconds : Z)
| ConnectEx (ip : string) (port : Z) (timeout : option Z) (errno : Z)
| SocketClose
| CheckOutput (command : list string) (answer : result string)
| Popen (command : list string) (answer : result (list string))
| Now (microseconds : Z).

(** [socket.getdefaulttimeout()] and the events so far. *)
Record World : Type := mkWorld {
  default_timeout : option Z;
  trace : list event
}.

(** A fresh interpreter: no default timeout, nothing done yet. *)
Definition fresh : World := mkWorld None [].

(** [argparse.Namespace] of this parser. *)
Record Namespace : Type := mkNamespace {
  args_host : string;
  args_ping : bool;
  args_scan : option string;
  args_traceroute : bool;
  args_all : bool
}.

(** [parser.parse_args()] returns the namespace, or prints a message and
    leaves through [sys.exit] (2 for a usage error, 0 after [-h]). *)
Inductive parse_outcome : Type :=
| Parsed (args : Namespace)
| ParserExit (message : event) (code : Z).

(** The collaborators: argparse, the resolver, the TCP stack, the process
    spawner, [platform.system()] and the clock.  The answers of the
    network, of spawned processes and of the clock may depend on the
    events so far. *)
Record Env : Type := mkEnv {
  parse_args : list string -> parse_outcome;
  format_help : string;
  gethostbyname : list event -> string -> result string;
  connect : list event -> string -> Z -> option Z -> Z;
  check_output : list event -> list string -> result string;
  popen : list event -> list string -> result (list string);
  platform_system : string;
  now : list event -> Z;
  str_timedelta : Z -> string
}.

(** ** The monad *)

Definition M (A : Type) : Type := World -> result A * World.

Definition ret {A : Type} (a : A) : M A := fun w => (Ok a, w).

Definition raise {A : Type} (e : exn) : M A := fun w => (Raise e, w).

Definition bind {A B : Type} (m : M A) (k : A -> M B) : M B :=
  fun w =>
    match m w with
    | (Ok a, w') => k a w'
    | (Raise e, w') => (Raise e, w')
    end.

Notation "x <- m ;; k" := (bind m (fun x => k))
  (at level 61, m at next level, right associativity).
Notation "m ;; k" := (bind m (fun _ => k))
  (at level 61, right associativity).

(** [try: body except ...]: the handler names the classes it catches. *)
Definition try_except {A : Type} (body : M A) (handler : exn -> option (M A))
  : M A :=
  fun w =>
    match body w with
    | (Ok a, w') => (Ok a, w')
    | (Raise e, w') =>
        match handler e with
        | Some h => h w'
        | None => (Raise e, w')
        end
    end.

Definition lift {A : Type} (r : result A) : M A := fun w => (r, w).

Definition emit (e : event) : M unit :=
  fun w => (Ok tt, mkWorld (default_timeout w) (trace w ++ [e])%list).

Definition nl : string := String "010"%char EmptyString.

(** [sys.stdout.write(s)] and [print(s)]. *)
Definition write (s : string) : M unit := emit (Stdout s).
Definition print (s : string) : M unit := emit (Stdout (s ++ nl)).

(** A socket object: what matters of it is the timeout it was created
    with, the module's default at that moment. *)
Record socket : Type := mkSocket { sock_timeout : option Z }.

Definition socket_socket : M socket :=
  fun w => (Ok (mkSocket (default_timeout w)),
            mkWorld (default_timeout w)
                    (trace w ++ [SocketNew (default_timeout w)])%list).

Definition setdefaulttimeout (seconds : Z) : M unit :=
  fun w => (Ok tt,
            mkWorld (Some seconds)
                    (trace w ++ [SetDefaultTimeout seconds])%list).

Definition sock_close (s : socket) : M unit := emit SocketClose.

(** Truth value of a string-or-[None], as in [if not ip_address] and
    [if args.scan]. *)
Definition truthy (s : option string) : bool :=
  match s with
  | Some s' => negb (String.eqb s' "")
  | None => false
  end.

(** The string a string-or-[None] stands for where the script uses it. *)
Definition value (s : option string) : string :=
  match s with
  | Some s' => s'
  | None => "None"
  end.

Module Colors.
Definition ESC : string := String "027"%char EmptyString.
Definition GREEN : string := ESC ++ "[92m".
Definition YELLOW : string := ESC ++ "[93m".
Definition RED : string := ESC ++ "[91m".
Definition BLUE : string := ESC ++ "[94m".
Definition ENDC : string := ESC ++ "[0m".
End Colors.

(** ** The script *)

Section Script.

Variable env : Env.

(** *** External calls, recorded in the trace *)

Definition socket_gethostbyname (hostname : string) : M string :=
  fun w =>
    let r := gethostbyname env (trace w) hostname in
    (r, mkWorld (default_timeout w)
                (trace w ++ [Gethostbyname hostname r])%list).

(** [sock.connect_ex((ip, port))]: a port outside 0..65535 raises
    [OverflowError] before anything is sent; otherwise the call blocks for
    as long as the socket's own timeout allows and returns the errno. *)
Definition connect_ex (sock : socket) (ip : string) (port : Z) : M Z :=
  fun w =>
    if (0 <=? port) && (port <=? 65535) then
      let r := connect env (trace w) ip port (sock_timeout sock) in
      (Ok r, mkWorld (default_timeout w)
                     (trace w ++ [ConnectEx ip port (sock_timeout sock) r])%list)
    else (Raise OverflowError, w).

Definition subprocess_check_output (command : list string) : M string :=
  fun w =>
    let r := check_output env (trace w) command in
    (r, mkWorld (default_timeout w) (trace w ++ [CheckOutput command r])%list).

Definition subprocess_Popen (command : list string) : M (list string) :=
  fun w =>
    let r := popen env (trace w) command in
    (r, mkWorld (default_timeout w) (trace w ++ [Popen command r])%list).

Definition datetime_now : M Z :=
  fun w =>
    let t := now env (trace w) in
    (Ok t, mkWorld (default_timeout w) (trace w ++ [Now t])%list).

(** *** print_banner *)

Definition banner : string :=
  Colors.BLUE ++ nl ++
  "    _   __     __  ___________   __________  ____  __" ++ nl ++
  "   / | / /__  / /_/  _/ ____/ | / / ____/ / / / / / /" ++ nl ++
  "  /  |/ / _ \/ __// // /   /  |/ / /   / /_/ / / / /" ++ nl ++
  " / /|  /  __/ /__/ // /___/ /|  / /___/ __  / /_/ /" ++ nl ++
  "/_/ |_/\___/\__/___/\____/_/ |_/\____/_/ /_/\____/" ++ nl ++
  "        Network Diagnostic Tool by Samuel Witt" ++ nl ++
  "    " ++ Colors.ENDC.

Definition print_banner : M unit := print banner.

(** *** resolve_host *)

Definition resolve_host (hostname : string) : M (option string) :=
  try_except
    (ip_address <- socket_gethostbyname hostname ;;
     ret (Some ip_address))
    (fun e => match e with
              | gaierror => Some (ret None)
              | _ => None
              end).

(** *** ping_host *)

Definition ping_host (host : string) : M unit :=
  print (nl ++ Colors.YELLOW ++ "[*] Pinging " ++ host ++ "..."
            ++ Colors.ENDC) ;;
  let param :=
    if String.eqb (Py.lower (platform_system env)) "windows"
    then "-n" else "-c" in
  let command := [ "ping"; param; "1"; host ] in
  try_except
    (output <- subprocess_check_output command ;;
     print (Colors.GREEN ++ "[+] Host is reachable." ++ Colors.ENDC) ;;
     print output)
    (fun e =>
       match e with
       | CalledProcessError =>
           Some (print (Colors.RED ++ "[-] Host is unreachable."
                          ++ Colors.ENDC))
       | FileNotFoundError =>
           Some (print (Colors.RED ++
             "[-] Ping command not found. Please ensure it's in your system's PATH."
             ++ Colors.ENDC))
       | _ => None
       end).

(** *** scan_ports *)

Definition msg_open (port : Z) : string :=
  Colors.GREEN ++ "[+] Port " ++ Py.str port ++ ": Open" ++ Colors.ENDC.

Definition msg_closed (port : Z) : string :=
  "[-] Port " ++ Py.str port ++ ": Closed".

(** The body of [for port in port_list], with [open_ports] threaded
    through. *)
Fixpoint scan_loop (ip_address : string) (port_list : list Z)
  (open_ports : list Z) : M (list Z) :=
  match port_list with
  | [] => ret open_ports
  | port :: rest =>
      sock <- socket_socket ;;
      setdefaulttimeout 1 ;;
      result <- connect_ex sock ip_address port ;;
      open_ports' <-
        (if result =? 0 then
           print (msg_open port) ;;
           ret (open_ports ++ [port])%list
         else
           print (msg_closed port) ;;
           ret open_ports) ;;
      sock_close sock ;;
      scan_loop ip_address rest open_ports'
  end.

Definition scan_ports (host ports : string) : M unit :=
  ip_address <- resolve_host host ;;
  if negb (truthy ip_address) then
    print (Colors.RED ++ "[-] Cannot resolve hostname '" ++ host
             ++ "'. Aborting port scan." ++ Colors.ENDC)
  else
    print (nl ++ Colors.YELLOW ++ "[*] Starting TCP port scan on "
             ++ host ++ " (" ++ value ip_address ++ ")..." ++ Colors.ENDC) ;;
    start_time <- datetime_now ;;
    port_list <- lift (Py.comprehension Py.int (Py.split "," ports)) ;;
    open_ports <- scan_loop (value ip_address) port_list [] ;;
    end_time <- datetime_now ;;
    let total_time := end_time - start_time in
    print (nl ++ Colors.YELLOW ++ "[*] Port scan completed in: "
             ++ str_timedelta env total_time ++ Colors.ENDC) ;;
    match open_ports with
    | _ :: _ =>
        print (Colors.GREEN ++ "Summary: Open ports found: "
                 ++ Py.join ", " (map Py.str open_ports) ++ Colors.ENDC)
    | [] =>
        print (Colors.RED
                 ++ "Summary: No open ports found in the specified list."
                 ++ Colors.ENDC)
    end.

(** *** traceroute *)

Fixpoint write_lines (lines : list string) : M unit :=
  match lines with
  | [] => ret tt
  | line :: rest => write line ;; write_lines rest
  end.

Definition traceroute (host : string) : M unit :=
  ip_address <- resolve_host host ;;
  if negb (truthy ip_address) then
    print (Colors.RED ++ "[-] Cannot resolve hostname '" ++ host
             ++ "'. Aborting traceroute." ++ Colors.ENDC)
  else
    print (nl ++ Colors.YELLOW ++ "[*] Performing traceroute to " ++ host
             ++ " (" ++ value ip_address ++ ")..." ++ Colors.ENDC) ;;
    let command :=
      if String.eqb (Py.lower (platform_system env)) "windows"
      then "tracert" else "traceroute" in
    try_except
      (stdout <- subprocess_Popen [ command; host ] ;;
       write_lines stdout)
      (fun e =>
         match e with
         | FileNotFoundError =>
             Some (print (Colors.RED ++ "[-] '" ++ command
               ++ "' command not found. Please ensure it is installed and in your system's PATH."
               ++ Colors.ENDC))
         | _ => None
         end).

(** *** main *)

Definition common_ports : string := "21,22,80,443,3306,8000,8080".

(** [main] after [args = parser.parse_args()]: the resolution that is
    always performed first, then the requested checks. *)
Definition main_args (args : Namespace) : M unit :=
  let target_host := args_host args in
  print (Colors.YELLOW ++ "[*] Resolving hostname '" ++ target_host
           ++ "'..." ++ Colors.ENDC) ;;
  ip <- resolve_host target_host ;;
  (if truthy ip then
     print (Colors.GREEN ++ "[+] '" ++ target_host
              ++ "' resolved to IP address: " ++ value ip ++ Colors.ENDC)
   else
     print (Colors.RED ++ "[-] Could not resolve '" ++ target_host
              ++ "'. Some functions may fail." ++ Colors.ENDC)) ;;
  if args_all args then
    ping_host target_host ;;
    scan_ports target_host common_ports ;;
    traceroute target_host
  else
    (if args_ping args then ping_host target_host else ret tt) ;;
    (if truthy (args_scan args) then
       scan_ports target_host (value (args_scan args))
     else ret tt) ;;
    (if args_traceroute args then traceroute target_host else ret tt).

(** [main]: [sys.argv] is the argument; the parser reads [sys.argv[1:]]. *)
Definition main (argv : list string) : M unit :=
  print_banner ;;
  (if (List.length argv =? 1)%nat then
     emit (Stderr (format_help env)) ;;
     raise (SystemExit 1)
   else ret tt) ;;
  match parse_args env (tl argv) with
  | ParserExit message code => emit message ;; raise (SystemExit code)
  | Parsed args => main_args args
  end.

(** What the interpreter makes of the end of [main]: 0 after a normal
    return, the code of a [SystemExit], 1 after an uncaught exception
    (traceback on standard error). *)
Definition exit_code (r : result unit) : Z :=
  match r with
  | Ok _ => 0
  | Raise (SystemExit code) => code
  | Raise _ => 1
  end.

(** The whole process from a fresh interpreter. *)
Definition run (argv : list string) : result unit * World := main argv fresh.

End Script.

(** ** Concrete environments for the examples *)

(** The errno values of the examples (Linux). *)
Module Errno.
Definition EAGAIN : Z := 11.
Definition ETIMEDOUT : Z := 110.
Definition ECONNREFUSED : Z := 111.
End Errno.

Module Examples.

Definition usage : string :=
  "usage: net_diag_tool.py [-h] [-p] [-s SCAN] [-t] [-a] host".

Definition usage_error : parse_outcome := ParserExit (Stderr usage) 2.

Definition starts_with_dash (t : string) : bool :=
  match t with
  | String "-"%char (String _ _) => true
  | _ => false
  end.

(** A command-line reader for the examples: the positional host and the
    options written out in full as separate tokens; any other token that
    starts with a dash, a missing [-s] value and a second positional are
    usage errors, reported once the line is read, and [-h] leaves at
    once.  (argparse's abbreviations, clustered short options,
    [--scan=...] and a negative number as [-s] value are not covered.)
    It only builds the environments below; every theorem quantifies
    over the parser. *)
Fixpoint cli (tokens : list string) (host : option string)
  (ping : bool) (scan : option string) (trace_ all extras : bool)
  : parse_outcome :=
  match tokens with
  | [] =>
      match host with
      | Some h =>
          if extras then usage_error
          else Parsed (mkNamespace h ping scan trace_ all)
      | None => usage_error
      end
  | t :: rest =>
      if String.eqb t "-h" || String.eqb t "--help" then
        ParserExit (Stdout usage) 0
      else if String.eqb t "-p" || String.eqb t "--ping" then
        cli rest host true scan trace_ all extras
      else if String.eqb t "-t" || String.eqb t "--traceroute" then
        cli rest host ping scan true all extras
      else if String.eqb t "-a" || String.eqb t "--all" then
        cli rest host ping scan trace_ true extras
      else if String.eqb t "-s" || String.eqb t "--scan" then
        match rest with
        | v :: rest' =>
            if starts_with_dash v then usage_error
            else cli rest' host ping (Some v) trace_ all extras
        | [] => usage_error
        end
      else if starts_with_dash t then
        cli rest host ping scan trace_ all true
      else
        match host with
        | None => cli rest (Some t) ping scan trace_ all extras
        | Some _ => cli rest host ping scan trace_ all true
        end
  end.

(** A host that resolves, with port 80 open, 443 refusing (ECONNREFUSED,
    111), port 81 silent (EAGAIN, 11, when the socket has a timeout;
    ETIMEDOUT, 110, when the kernel gives up on a blocking one) and
    every other port refusing; ping and traceroute installed. *)
Definition lab : Env :=
  {| parse_args :=
       fun tokens => cli tokens None false None false false false;
     format_help := usage;
     gethostbyname := fun _ _ => Ok "192.0.2.7";
     connect := fun _ _ port timeout =>
       if port =? 80 then 0
       else if port =? 81 then
              match timeout with
              | Some _ => Errno.EAGAIN
              | None => Errno.ETIMEDOUT
              end
       else Errno.ECONNREFUSED;
     check_output := fun _ _ => Ok "1 packets transmitted, 1 received";
     popen := fun _ _ => Ok [ " 1  192.0.2.7  0.5 ms" ];
     platform_system := "Linux";
     now := fun tr => 1000000 * Z.of_nat (List.length tr);
     str_timedelta := fun _ => "0:00:01" |}.

(** No resolver answer, no route: every lookup fails with [gaierror],
    ping exits with a non-zero status, traceroute is not installed and
    every connect is refused. *)
Definition offline : Env :=
  {| parse_args :=
       fun tokens => cli tokens None false None false false false;
     format_help := usage;
     gethostbyname := fun _ _ => Raise gaierror;
     connect := fun _ _ _ _ => Errno.ECONNREFUSED;
     check_output := fun _ _ => Raise CalledProcessError;
     popen := fun _ _ => Raise FileNotFoundError;
     platform_system := "Linux";
     now := fun tr => 1000000 * Z.of_nat (List.length tr);
     str_timedelta := fun _ => "0:00:00" |}.

End Examples.

(** ** Reading a trace *)

(** The connect attempts of a trace, in order: port and errno. *)
Definition connects (t : list event) : list (Z * Z) :=
  flat_map (fun e => match e with
                     | ConnectEx _ port _ errno => [(port, errno)]
                     | _ => []
                     end) t.

Definition probed_ports (t : list event) : list Z := map fst (connects t).

(** The timeout each connect attempt ran under. *)
Definition connect_timeouts (t : list event) : list (option Z) :=
  flat_map (fun e => match e with
                     | ConnectEx _ _ timeout _ => [timeout]
                     | _ => []
                     end) t.

(** The host names handed to the resolver. *)
Definition resolutions (t : list event) : list string :=
  flat_map (fun e => match e with
                     | Gethostbyname hostname _ => [hostname]
                     | _ => []
                     end) t.

(** Everything written to standard output. *)
Definition stdout (t : list event) : list string :=
  flat_map (fun e => match e with
                     | Stdout text => [text]
                     | _ => []
                     end) t.

(** The line [scan_ports] prints for a port whose [connect_ex] returned
    [errno]. *)
Definition status_line (pr : Z * Z) : string :=
  (if snd pr =? 0 then msg_open (fst pr) else msg_closed (fst pr)) ++ nl.

Definition is_status_line (s : string) : bool :=
  Py.startswith "[-] Port " s
  || Py.startswith (Colors.GREEN ++ "[+] Port ") s.

(** The per-port result lines of a trace. *)
Definition report_lines (t : list event) : list string :=
  filter is_status_line (stdout t).

(** The summary [scan_ports] prints for a list of open ports. *)
Definition summary_line (open_ports : list Z) : string :=
  match open_ports with
  | _ :: _ =>
      Colors.GREEN ++ "Summary: Open ports found: "
        ++ Py.join ", " (map Py.str open_ports) ++ Colors.ENDC
  | [] =>
      Colors.RED ++ "Summary: No open ports found in the specified list."
        ++ Colors.ENDC
  end ++ nl.

(** Sockets created and not yet closed: each one is a connect attempt
    that has been started and whose socket is still held. *)
Definition delta (e : event) : Z :=
  match e with
  | SocketNew _ => 1
  | SocketClose => -1
  | _ => 0
  end.

Definition outstanding (t : list event) : Z :=
  fold_right (fun e n => delta e + n) 0 t.

(** The ports [connect_ex] accepts. *)
Definition valid_port (port : Z) : bool := (0 <=? port) && (port <=? 65535).

(** The ports of a well-formed port string. *)
Definition parse_ports (ports : string) : result (list Z) :=
  Py.comprehension Py.int (Py.split "," ports).

(** Every entry of the port string is [plain]. *)
Definition plain_entries (ports : string) : bool :=
  forallb Py.plain (Py.split "," ports).

Definition is_open (pr : Z * Z) : bool := snd pr =? 0.

(** The events of one turn of the loop of [scan_ports]. *)
Definition probe_block (ip : string) (timeout : option Z) (pr : Z * Z)
  : list event :=
  [ SocketNew timeout; SetDefaultTimeout 1;
    ConnectEx ip (fst pr) timeout (snd pr);
    Stdout (status_line pr); SocketClose ].

(** The events of the whole loop: the first socket is created under the
    default timeout the loop starts with, the later ones under the 1
    second the first turn has set. *)
Fixpoint loop_blocks (ip : string) (timeout : option Z) (prs : list (Z * Z))
  : list event :=
  match prs with
  | [] => []
  | pr :: rest => probe_block ip timeout pr ++ loop_blocks ip (Some 1) rest
  end.

(** ** The lines the script prints *)

Definition msg_resolving (host : string) : string :=
  Colors.YELLOW ++ "[*] Resolving hostname '" ++ host ++ "'..."
    ++ Colors.ENDC.

Definition msg_unresolved (host : string) : string :=
  Colors.RED ++ "[-] Could not resolve '" ++ host
    ++ "'. Some functions may fail." ++ Colors.ENDC.

Definition msg_abort_scan (host : string) : string :=
  Colors.RED ++ "[-] Cannot resolve hostname '" ++ host
    ++ "'. Aborting port scan." ++ Colors.ENDC.

Definition msg_start (host ip : string) : string :=
  nl ++ Colors.YELLOW ++ "[*] Starting TCP port scan on " ++ host
    ++ " (" ++ ip ++ ")..." ++ Colors.ENDC.

Definition msg_completed (env : Env) (total_time : Z) : string :=
  nl ++ Colors.YELLOW ++ "[*] Port scan completed in: "
    ++ str_timedelta env total_time ++ Colors.ENDC.

(** The events of a scan that runs to its end. *)
Definition scan_events (env : Env) (host ip : string)
  (timeout : option Z)
  (prs : list (Z * Z)) (t1 t2 : Z) : list event :=
  ([ Gethostbyname host (Ok ip); Stdout (msg_start host ip ++ nl); Now t1 ]
   ++ loop_blocks ip timeout prs
   ++ [ Now t2; Stdout (msg_completed env (t2 - t1) ++ nl);
        Stdout (summary_line (map fst (filter is_open prs))) ])%list.

(** ** Properties of segments and of computations *)

(** Events that neither create, use nor close a socket. *)
Definition passive (e : event) : bool :=
  match e with
  | SocketNew _ | ConnectEx _ _ _ _ | SocketClose => false
  | _ => true
  end.

(** A segment of passive events. *)
Definition quiet (seg : list event) : Prop := forallb passive seg = true.

Definition is_connect (e : event) : bool :=
  match e with
  | ConnectEx _ _ _ _ => true
  | _ => false
  end.

(** In [seg], each connect attempt is followed at once by the line the
    loop prints for its errno. *)
Definition answered (seg : list event) : Prop :=
  forall (pre post : list event) (ip : string) (port : Z)
         (timeout : option Z) (errno : Z),
    seg = (pre ++ ConnectEx ip port timeout errno :: post)%list ->
    exists post',
      post = Stdout ((if errno =? 0 then msg_open port else msg_closed port)
                     ++ nl) :: post'.



(** The commands handed to the process spawner, in order. *)
Definition spawned (t : list event) : list (list string) :=
  flat_map (fun e => match e with
                     | CheckOutput command _ => [command]
                     | Popen command _ => [command]
                     | _ => []
                     end) t.

(** [emits P m]: whatever the world, [m] only appends to the trace, and
    what it appends satisfies [P]. *)
Definition emits {A : Type} (P : list event -> Prop) (m : M A) : Prop :=
  forall w : World,
    exists seg : list event,
      trace (snd (m w)) = (trace w ++ seg)%list /\ P seg.

(** [m] returns normally from every world. *)
Definition succeeds {A : Type} (m : M A) : Prop :=
  forall w : World, exists a : A, fst (m w) = Ok a.

(** ** Assumptions on the collaborators and on the command line *)

(** The collaborators raise only what the script expects of them: the
    resolver [gaierror], ping a non-zero status or a missing executable,
    traceroute a missing executable. *)
Definition tame (env : Env) : Prop :=
  (forall t hostname e, gethostbyname env t hostname = Raise e -> e = gaierror)
  /\ (forall t command e,
        check_output env t command = Raise e ->
        e = CalledProcessError \/ e = FileNotFoundError)
  /\ (forall t command e,
        popen env t command = Raise e -> e = FileNotFoundError).

(** Every entry of the port string is [plain] and an integer
    [connect_ex] accepts. *)
Definition well_formed (ports : string) : bool :=
  plain_entries ports
  && match parse_ports ports with
     | Ok port_list => forallb valid_port port_list
     | Raise _ => false
     end.

(** The port string the run will scan, if any, is well formed. *)
Definition scan_argument_ok (env : Env) (argv : list string) : Prop :=
  match parse_args env (tl argv) with
  | Parsed args =>
      args_all args = true
      \/ truthy (args_scan args) = false
      \/ well_formed (value (args_scan args)) = true
  | ParserExit _ _ => True
  end.

(** ** The checks a run was asked for *)


(** ** The sequence of the all-checks flag *)

(** The resolution [main] always performs first. *)
Definition resolve_first (env : Env) (host : string) : M unit :=
  print (msg_resolving host) ;;
  ip <- resolve_host env host ;;
  if truthy ip then
    print (Colors.GREEN ++ "[+] '" ++ host ++ "' resolved to IP address: "
             ++ value ip ++ Colors.ENDC)
  else print (msg_unresolved host).

(** The fixed sequence of [-a]: ping, scan of the default ports,
    traceroute. *)
Definition all_checks (env : Env) (host : string) : M unit :=
  ping_host env host ;;
  scan_ports env host "21,22,80,443,3306,8000,8080" ;;
  traceroute env host.

Definition default_ports : list Z := [ 21; 22; 80; 443; 3306; 8000; 8080 ].

(** The probes of a segment all go to default ports. *)
Definition probes_default_ports (seg : list event) : Prop :=
  incl (probed_ports seg) default_ports.

(** ** Further readings of a trace and of a string *)

(** A list with every repetition dropped: the order of first
    appearance. *)
Fixpoint first_appearance (l : list Z) : list Z :=
  match l with
  | [] => []
  | x :: rest => x :: filter (fun y => negb (y =? x)) (first_appearance rest)
  end.

(** The addresses the connect attempts of a trace went to. *)
Definition connect_targets (t : list event) : list string :=
  flat_map (fun e => match e with
                     | ConnectEx ip _ _ _ => [ip]
                     | _ => []
                     end) t.

(** Sockets created, and sockets closed, in a trace. *)
Definition sockets_created (t : list event) : nat :=
  List.length (filter (fun e => match e with
                                | SocketNew _ => true
                                | _ => false
                                end) t).

Definition sockets_closed (t : list event) : nat :=
  List.length (filter (fun e => match e with
                                | SocketClose => true
                                | _ => false
                                end) t).

(** The commands started with [subprocess.Popen] only. *)
Definition popened (t : list event) : list (list string) :=
  flat_map (fun e => match e with
                     | Popen command _ => [command]
                     | _ => []
                     end) t.

(** A string of white space only, as [int] strips it. *)
Definition blank (s : string) : Prop :=
  Forall (fun c => Py.is_space c = true) (list_ascii_of_string s).

(** [m] returns normally from every world, and calls the resolver [n]
    times on the way. *)
Definition completes_resolving {A : Type} (n : nat) (m : M A) : Prop :=
  forall w : World,
    exists (a : A) (seg : list event),
      fst (m w) = Ok a
      /\ trace (snd (m w)) = (trace w ++ seg)%list
      /\ List.length (resolutions seg) = n.

(** The steps of a run that resolve the host name for themselves. *)
Definition resolving_steps (args : Namespace) : nat :=
  if args_all args then 2%nat
  else ((if truthy (args_scan args) then 1 else 0)
        + (if args_traceroute args then 1 else 0))%nat.

(** ** Further environments for the examples *)

Module MoreExamples.

(** The lab behind a name with two addresses, handed out in turn. *)
Definition round_robin : Env :=
  {| parse_args := parse_args Examples.lab;
     format_help := format_help Examples.lab;
     gethostbyname := fun t _ =>
       if Nat.even (List.length (resolutions t)) then Ok "192.0.2.7"
       else Ok "192.0.2.8";
     connect := connect Examples.lab;
     check_output := check_output Examples.lab;
     popen := popen Examples.lab;
     platform_system := platform_system Examples.lab;
     now := now Examples.lab;
     str_timedelta := str_timedelta Examples.lab |}.

(** The lab on Windows, where a permission problem keeps ping from
    starting. *)
Definition windows : Env :=
  {| parse_args := parse_args Examples.lab;
     format_help := format_help Examples.lab;
     gethostbyname := gethostbyname Examples.lab;
     connect := connect Examples.lab;
     check_output := fun _ _ => Raise (OtherError "PermissionError");
     popen := fun _ _ =>
       Ok [ "Tracing route to example.org" ++ nl; "  1  192.0.2.7" ++ nl ];
     platform_system := "Windows";
     now := now Examples.lab;
     str_timedelta := str_timedelta Examples.lab |}.

End MoreExamples.

(** ** The commands and lines of ping and traceroute *)

Definition ping_command (env : Env) (host : string) : list string :=
  [ "ping";
    if String.eqb (Py.lower (platform_system env)) "windows"
    then "-n" else "-c";
    "1"; host ].

Definition traceroute_command (env : Env) (host : string) : list string :=
  [ if String.eqb (Py.lower (platform_system env)) "windows"
    then "tracert" else "traceroute";
    host ].

Definition msg_pinging (host : string) : string :=
  nl ++ Colors.YELLOW ++ "[*] Pinging " ++ host ++ "..." ++ Colors.ENDC.

Definition msg_reachable : string :=
  Colors.GREEN ++ "[+] Host is reachable." ++ Colors.ENDC.

Definition msg_unreachable : string :=
  Colors.RED ++ "[-] Host is unreachable." ++ Colors.ENDC.

Definition msg_ping_missing : string :=
  Colors.RED
    ++ "[-] Ping command not found. Please ensure it's in your system's PATH."
    ++ Colors.ENDC.

Definition msg_abort_traceroute (host : string) : string :=
  Colors.RED ++ "[-] Cannot resolve hostname '" ++ host
    ++ "'. Aborting traceroute." ++ Colors.ENDC.

Definition msg_tracing (host ip : string) : string :=
  nl ++ Colors.YELLOW ++ "[*] Performing traceroute to " ++ host
    ++ " (" ++ ip ++ ")..." ++ Colors.ENDC.

Definition msg_tool_missing (env : Env) : string :=
  Colors.RED ++ "[-] '"
    ++ (if String.eqb (Py.lower (platform_system env)) "windows"
        then "tracert" else "traceroute")
    ++ "' command not found. Please ensure it is installed and in your system's PATH."
    ++ Colors.ENDC.

(** ** The order of the steps *)

(** The step an event belongs to: 1 for the ping process, 2 for the
    sockets of the scan, 3 for the traceroute process. *)
Definition steps (t : list event) : list nat :=
  flat_map (fun e => match e with
                     | CheckOutput _ _ => [ 1%nat ]
                     | SocketNew _ | ConnectEx _ _ _ _ | SocketClose =>
                         [ 2%nat ]
                     | Popen _ _ => [ 3%nat ]
                     | _ => []
                     end) t.

(** A segment whose step events all belong to step [k]; one of them at
    most. *)
Definition step_only (k : nat) (seg : list event) : Prop :=
  exists n : nat, steps seg = repeat k n.

Definition step_once (k : nat) (seg : list event) : Prop :=
  exists n : nat, (n <= 1)%nat /\ steps seg = repeat k n.

(** Ping first, then the scan, then traceroute. *)
Definition in_step_order (seg : list event) : Prop :=
  exists a b c : nat,
    (a <= 1)%nat /\ (c <= 1)%nat
    /\ steps seg = (repeat 1 a ++ repeat 2 b ++ repeat 3 c)%nat%list.

(** * Properties *)

(** ** The built-ins on examples *)

Example split_3 : Py.split "," "80,443,80" = ["80"; "443"; "80"].
Proof. reflexivity. Qed.

Example split_empty : Py.split "," "" = [""].
Proof. reflexivity. Qed.

Example int_443 : Py.int " +4_43 " = Ok 443.
Proof. reflexivity. Qed.

Example int_empty : Py.int "" = Raise (ValueError "").
Proof. reflexivity. Qed.

Example str_neg : Py.str (-8080) = "-8080".
Proof. reflexivity. Qed.

Example lower_Windows : Py.lower "Windows" = "windows".
Proof. reflexivity. Qed.

(** ** The script on examples *)

Example scan_80_443_80 :
  stdout (trace (snd (scan_ports Examples.lab "example.org" "80,443,80" fresh)))
  = [ msg_start "example.org" "192.0.2.7" ++ nl;
      msg_open 80 ++ nl; msg_closed 443 ++ nl; msg_open 80 ++ nl;
      msg_completed Examples.lab 0 ++ nl;
      summary_line [ 80; 80 ] ]%string.
Proof. reflexivity. Qed.

Example scan_offline :
  scan_ports Examples.offline "nowhere.invalid" "80" fresh
  = (Ok tt,
     mkWorld None [ Gethostbyname "nowhere.invalid" (Raise gaierror);
                    Stdout (msg_abort_scan "nowhere.invalid" ++ nl) ]).
Proof. reflexivity. Qed.

Example run_without_arguments :
  run Examples.lab [ "net_diag_tool.py" ]
  = (Raise (SystemExit 1),
     mkWorld None [ Stdout (banner ++ nl); Stderr Examples.usage ]).
Proof. reflexivity. Qed.

Example run_help :
  exit_code (fst (run Examples.lab [ "net_diag_tool.py"; "-h" ])) = 0.
Proof. reflexivity. Qed.

Example run_all_spawns_ping_and_traceroute :
  spawned (trace (snd (run Examples.lab
                         [ "net_diag_tool.py"; "example.org"; "-a" ])))
  = [ [ "ping"; "-c"; "1"; "example.org" ]; [ "traceroute"; "example.org" ] ]
  /\ probed_ports (trace (snd (run Examples.lab
                         [ "net_diag_tool.py"; "example.org"; "-a" ])))
     = default_ports.
Proof. split; reflexivity. Qed.

(** ** The loop, turn by turn *)

Section Loop.

Variable env : Env.

Lemma scan_loop_cons (ip : string) (port : Z) (rest acc : list Z) (w : World) :
  scan_loop env ip (port :: rest) acc w =
  if valid_port port then
    let errno :=
      connect env
        (trace w ++ [SocketNew (default_timeout w); SetDefaultTimeout 1])
        ip port (default_timeout w) in
    scan_loop env ip rest
      (if errno =? 0 then acc ++ [port] else acc)%list
      (mkWorld (Some 1)
         (trace w ++ probe_block ip (default_timeout w) (port, errno)))
  else
    (Raise OverflowError,
     mkWorld (Some 1)
       (trace w ++ [SocketNew (default_timeout w); SetDefaultTimeout 1])).
Proof.
  unfold valid_port, probe_block, status_line.
  cbn [scan_loop].
  unfold bind, socket_socket, setdefaulttimeout, connect_ex.
  cbn [sock_timeout trace default_timeout fst snd].
  rewrite <- !app_assoc. cbn [app].
  destruct ((0 <=? port) && (port <=? 65535)); [ | reflexivity ].
  cbv zeta.
  destruct (connect env _ ip port (default_timeout w) =? 0);
    unfold sock_close, print, emit, ret;
    cbn [trace default_timeout];
    rewrite <- !app_assoc; reflexivity.
Qed.

(** When every port is one [connect_ex] accepts, the loop runs to its end:
    one block per port, in order, and the open ports collected in order. *)
Lemma scan_loop_ok (ip : string) (port_list : list Z) :
  forallb valid_port port_list = true ->
  forall (acc : list Z) (w : World),
  exists prs : list (Z * Z),
    map fst prs = port_list /\
    scan_loop env ip port_list acc w =
    (Ok (acc ++ map fst (filter is_open prs))%list,
     mkWorld (match port_list with
              | [] => default_timeout w
              | _ :: _ => Some 1
              end)
             (trace w ++ loop_blocks ip (default_timeout w) prs)).
Proof.
  induction port_list as [ | port rest IH ]; intros Hvalid acc w.
  - exists []. split; [ reflexivity | ].
    cbn. rewrite !app_nil_r. destruct w; reflexivity.
  - cbn [forallb] in Hvalid. apply andb_prop in Hvalid as [Hport Hrest].
    rewrite scan_loop_cons, Hport. cbv zeta.
    set (errno := connect env _ ip port (default_timeout w)).
    destruct (IH Hrest (if errno =? 0 then acc ++ [port] else acc)%list
                (mkWorld (Some 1)
                   (trace w ++ probe_block ip (default_timeout w)
                                 (port, errno))))
      as [prs [Hprs Hrun]].
    exists ((port, errno) :: prs). split.
    + cbn [map fst]. now rewrite Hprs.
    + rewrite Hrun.
      cbn [default_timeout trace loop_blocks filter].
      change (is_open (port, errno)) with (errno =? 0).
      rewrite <- !app_assoc.
      destruct (errno =? 0); destruct rest;
        cbn [map fst app default_timeout]; rewrite <- ?app_assoc;
        reflexivity.
Qed.

(** Whatever the ports are, the loop emits whole blocks for a prefix of
    the list and, when it stops at a port [connect_ex] refuses, the
    socket it had just created for it. *)
Lemma scan_loop_any (ip : string) (port_list : list Z) :
  forall (acc : list Z) (w : World),
  exists (prs : list (Z * Z)) (tail : list event),
    trace (snd (scan_loop env ip port_list acc w)) =
      (trace w ++ loop_blocks ip (default_timeout w) prs ++ tail)%list /\
    (exists rest, port_list = map fst prs ++ rest)%list /\
    match fst (scan_loop env ip port_list acc w) with
    | Ok _ => tail = []
    | Raise _ => exists t, tail = [SocketNew t; SetDefaultTimeout 1]
    end.
Proof.
  induction port_list as [ | port rest IH ]; intros acc w.
  - exists [], []. cbn. rewrite app_nil_r.
    repeat split. now exists [].
  - rewrite scan_loop_cons.
    destruct (valid_port port).
    + cbv zeta.
      set (errno := connect env _ ip port (default_timeout w)).
      destruct (IH (if errno =? 0 then acc ++ [port] else acc)%list
                  (mkWorld (Some 1)
                     (trace w ++ probe_block ip (default_timeout w)
                                   (port, errno))))
        as [prs [tail [Htrace [[rest' Hrest] Htail]]]].
      exists ((port, errno) :: prs), tail.
      split; [ | split ].
      * rewrite Htrace. cbn [default_timeout trace loop_blocks].
        now rewrite <- !app_assoc.
      * exists rest'. cbn [map fst app]. now rewrite Hrest.
      * exact Htail.
    + exists [], [SocketNew (default_timeout w); SetDefaultTimeout 1].
      cbn. repeat split.
      * now exists (port :: rest).
      * now exists (default_timeout w).
Qed.

End Loop.

(** ** The shape of a scan *)

Section Scan.

Variable env : Env.

(** [scan_ports] with its binds carried out: what it returns and the
    world it leaves, case by case. *)
Lemma scan_ports_eq (host ports : string) (w : World) :
  scan_ports env host ports w =
  let r := gethostbyname env (trace w) host in
  let resolved := [Gethostbyname host r] in
  let aborted :=
    (Ok tt, mkWorld (default_timeout w)
              (trace w ++ resolved ++ [Stdout (msg_abort_scan host ++ nl)])) in
  match r with
  | Raise gaierror => aborted
  | Raise e => (Raise e, mkWorld (default_timeout w) (trace w ++ resolved))
  | Ok ip =>
      if String.eqb ip "" then aborted
      else
        let started := (resolved ++ [Stdout (msg_start host ip ++ nl)])%list in
        let start_time := now env (trace w ++ started) in
        let w1 := mkWorld (default_timeout w)
                    (trace w ++ started ++ [Now start_time]) in
        match parse_ports ports with
        | Raise e => (Raise e, w1)
        | Ok port_list =>
            match scan_loop env ip port_list [] w1 with
            | (Raise e, w2) => (Raise e, w2)
            | (Ok open_ports, w2) =>
                let end_time := now env (trace w2) in
                (Ok tt,
                 mkWorld (default_timeout w2)
                   (trace w2
                    ++ [Now end_time;
                        Stdout (msg_completed env (end_time - start_time) ++ nl);
                        Stdout (summary_line open_ports)]))
            end
        end
  end.
Proof.
  unfold scan_ports, resolve_host, try_except, socket_gethostbyname,
    datetime_now, lift, print, emit, ret, bind, parse_ports.
  cbv zeta. cbn [trace default_timeout].
  destruct (gethostbyname env (trace w) host) as [ ip | e ].
  - cbn [truthy value negb].
    destruct (String.eqb ip ""); cbn [negb trace default_timeout].
    + now rewrite <- !app_assoc.
    + rewrite <- !app_assoc. cbn [app].
      destruct (Py.comprehension Py.int (Py.split "," ports))
        as [ port_list | e ]; [ | reflexivity ].
      destruct (scan_loop env ip port_list [] _) as [ [ open_ports | e ] w2 ];
        [ | reflexivity ].
      cbn [trace default_timeout].
      destruct open_ports; cbn [trace default_timeout summary_line];
        rewrite <- !app_assoc; reflexivity.
  - destruct e; try reflexivity.
    cbn [truthy negb trace default_timeout].
    now rewrite <- !app_assoc.
Qed.

Lemma scan_ports_ok (host ports ip : string) (port_list : list Z) (w : World) :
  gethostbyname env (trace w) host = Ok ip ->
  ip <> "" ->
  parse_ports ports = Ok port_list ->
  forallb valid_port port_list = true ->
  exists (prs : list (Z * Z)) (t1 t2 : Z),
    map fst prs = port_list /\
    fst (scan_ports env host ports w) = Ok tt /\
    trace (snd (scan_ports env host ports w)) =
      (trace w ++ scan_events env host ip (default_timeout w) prs t1 t2)%list.
Proof.
  intros Hres Hip Hparse Hvalid.
  apply String.eqb_neq in Hip.
  rewrite scan_ports_eq. cbv zeta.
  rewrite Hres, Hip, Hparse.
  match goal with
  | |- context [ scan_loop env ip port_list [] ?w1 ] =>
      destruct (scan_loop_ok env ip port_list Hvalid [] w1)
        as [ prs [ Hprs Hrun ] ];
      rewrite Hrun
  end.
  cbn [fst snd trace default_timeout app].
  eexists prs, _, _. split; [ exact Hprs | split; [ reflexivity | ] ].
  unfold scan_events. rewrite <- !app_assoc. reflexivity.
Qed.

(** Whatever its arguments, a scan emits passive events, then whole
    blocks for a prefix of the parsed list, then passive events again or,
    when a port was refused by [connect_ex], the socket just created. *)
Lemma scan_ports_shape (host ports : string) (w : World) :
  exists (pre : list event) (ip : string) (timeout : option Z)
         (prs : list (Z * Z)) (post : list event),
    trace (snd (scan_ports env host ports w)) =
      (trace w ++ pre ++ loop_blocks ip timeout prs ++ post)%list /\
    forallb passive pre = true /\
    (forallb passive post = true
     \/ exists t, post = [SocketNew t; SetDefaultTimeout 1]) /\
    (prs = []
     \/ exists port_list rest,
          parse_ports ports = Ok port_list
          /\ port_list = (map fst prs ++ rest)%list).
Proof.
  rewrite scan_ports_eq. cbv zeta.
  set (r := gethostbyname env (trace w) host).
  assert (Hquiet : forall pre : list event,
    forallb passive pre = true ->
    exists (pre' : list event) (ip : string) (timeout : option Z)
           (prs : list (Z * Z)) (post : list event),
      (trace w ++ pre)%list =
        (trace w ++ pre' ++ loop_blocks ip timeout prs ++ post)%list /\
      forallb passive pre' = true /\
      (forallb passive post = true
       \/ exists t, post = [SocketNew t; SetDefaultTimeout 1]) /\
      (prs = []
       \/ exists port_list rest,
            parse_ports ports = Ok port_list
            /\ port_list = (map fst prs ++ rest)%list)).
  { intros pre Hpre. exists pre, "", None, [], [].
    cbn [loop_blocks app]. rewrite app_nil_r.
    split; [ reflexivity | split; [ exact Hpre | split ] ];
      left; reflexivity. }
  destruct r as [ ip | e ].
  - destruct (String.eqb ip "").
    + cbn [snd trace]. apply Hquiet. reflexivity.
    + destruct (parse_ports ports) as [ port_list | e ] eqn:Hparse.
      * match goal with
        | |- context [ scan_loop env ip port_list [] ?w1 ] =>
            destruct (scan_loop_any env ip port_list [] w1)
              as [ prs [ tail [ Htrace [ [ rest Hrest ] Htail ] ] ] ];
            destruct (scan_loop env ip port_list [] w1)
              as [ [ open_ports | e ] w2 ]
        end;
          cbn [fst snd trace default_timeout] in Htrace, Htail |- *.
        -- subst tail. rewrite Htrace.
           exists [ Gethostbyname host (Ok ip);
                    Stdout (msg_start host ip ++ nl);
                    Now (now env (trace w ++
                                  [ Gethostbyname host (Ok ip);
                                    Stdout (msg_start host ip ++ nl) ])) ],
                  ip, (default_timeout w), prs.
           eexists.
           rewrite <- !app_assoc. cbn [app].
           split; [ reflexivity | split; [ reflexivity | split ] ].
           ++ left. reflexivity.
           ++ right. exists port_list, rest. split; [ reflexivity | exact Hrest ].
        -- destruct Htail as [ t Ht ]. subst tail. rewrite Htrace.
           exists [ Gethostbyname host (Ok ip);
                    Stdout (msg_start host ip ++ nl);
                    Now (now env (trace w ++
                                  [ Gethostbyname host (Ok ip);
                                    Stdout (msg_start host ip ++ nl) ])) ],
                  ip, (default_timeout w), prs.
           eexists.
           rewrite <- !app_assoc. cbn [app].
           split; [ reflexivity | split; [ reflexivity | split ] ].
           ++ right. exists t. reflexivity.
           ++ right. exists port_list, rest. split; [ reflexivity | exact Hrest ].
      * cbn [snd trace]. apply Hquiet. reflexivity.
  - destruct e; cbn [snd trace]; apply Hquiet; reflexivity.
Qed.

End Scan.

(** ** What a computation emits *)

Section Emits.

(** A property of segments that the empty segment has and that
    concatenation keeps goes through the combinators of the monad. *)
Variable P : list event -> Prop.
Hypothesis P_nil : P [].
Hypothesis P_app : forall a b : list event, P a -> P b -> P (a ++ b)%list.

Lemma emits_ret {A : Type} (a : A) : emits P (ret a).
Proof. intro w. exists []. now rewrite app_nil_r. Qed.

Lemma emits_raise {A : Type} (e : exn) : emits P (@raise A e).
Proof. intro w. exists []. now rewrite app_nil_r. Qed.

Lemma emits_lift {A : Type} (r : result A) : emits P (lift r).
Proof. intro w. exists []. now rewrite app_nil_r. Qed.

Lemma emits_bind {A B : Type} (m : M A) (k : A -> M B) :
  emits P m -> (forall a, emits P (k a)) -> emits P (bind m k).
Proof.
  intros Hm Hk w. unfold bind.
  destruct (Hm w) as [ s1 [ H1 P1 ] ].
  destruct (m w) as [ [ a | e ] w1 ]; cbn [snd] in H1.
  - destruct (Hk a w1) as [ s2 [ H2 P2 ] ].
    exists (s1 ++ s2)%list. rewrite H2, H1, app_assoc. auto.
  - exists s1. auto.
Qed.

Lemma emits_try {A : Type} (body : M A) (handler : exn -> option (M A)) :
  emits P body ->
  (forall e h, handler e = Some h -> emits P h) ->
  emits P (try_except body handler).
Proof.
  intros Hm Hh w. unfold try_except.
  destruct (Hm w) as [ s1 [ H1 P1 ] ].
  destruct (body w) as [ [ a | e ] w1 ]; cbn [snd] in H1.
  - exists s1. auto.
  - destruct (handler e) as [ h | ] eqn:He.
    + destruct (Hh e h He w1) as [ s2 [ H2 P2 ] ].
      exists (s1 ++ s2)%list. rewrite H2, H1, app_assoc. auto.
    + exists s1. auto.
Qed.

Lemma emits_if {A : Type} (b : bool) (m1 m2 : M A) :
  emits P m1 -> emits P m2 -> emits P (if b then m1 else m2).
Proof. now destruct b. Qed.

End Emits.

(** ** The steps other than the scan touch no socket *)

Lemma quiet_nil : quiet [].
Proof. reflexivity. Qed.

Lemma quiet_app (a b : list event) : quiet a -> quiet b -> quiet (a ++ b)%list.
Proof. unfold quiet. intros Ha Hb. now rewrite forallb_app, Ha, Hb. Qed.

Create HintDb emits.
#[local] Hint Resolve quiet_nil quiet_app : emits.

Section Steps.

Variable env : Env.

Lemma emit_quiet (e : event) : passive e = true -> emits quiet (emit e).
Proof.
  intros He w. exists [e]. split; [ reflexivity | ].
  unfold quiet. cbn. now rewrite He.
Qed.

Lemma print_quiet (s : string) : emits quiet (print s).
Proof. now apply emit_quiet. Qed.

Lemma write_lines_quiet (lines : list string) : emits quiet (write_lines lines).
Proof.
  induction lines as [ | line rest IH ]; cbn [write_lines].
  - apply emits_ret; auto with emits.
  - apply emits_bind; auto with emits. now apply emit_quiet.
Qed.

Lemma socket_gethostbyname_quiet (hostname : string) :
  emits quiet (socket_gethostbyname env hostname).
Proof. intro w. eexists [_]. split; reflexivity. Qed.

Lemma subprocess_check_output_quiet (command : list string) :
  emits quiet (subprocess_check_output env command).
Proof. intro w. eexists [_]. split; reflexivity. Qed.

Lemma subprocess_Popen_quiet (command : list string) :
  emits quiet (subprocess_Popen env command).
Proof. intro w. eexists [_]. split; reflexivity. Qed.

Ltac quiet_steps :=
  repeat first
    [ apply print_quiet
    | apply write_lines_quiet
    | apply socket_gethostbyname_quiet
    | apply subprocess_check_output_quiet
    | apply subprocess_Popen_quiet
    | apply emits_ret; auto with emits
    | apply emits_bind; [ solve [ auto with emits ] | | intro ]
    | apply emits_if ].

Lemma resolve_host_quiet (hostname : string) :
  emits quiet (resolve_host env hostname).
Proof.
  unfold resolve_host.
  apply emits_try; auto with emits.
  - quiet_steps.
  - intros e h He. destruct e; try discriminate.
    injection He as <-. quiet_steps.
Qed.

Lemma ping_host_quiet (host : string) : emits quiet (ping_host env host).
Proof.
  unfold ping_host. cbv zeta.
  apply emits_bind; auto with emits; [ apply print_quiet | intros _ ].
  apply emits_try; auto with emits.
  - quiet_steps.
  - intros e h He. destruct e; try discriminate;
      injection He as <-; apply print_quiet.
Qed.

Lemma traceroute_quiet (host : string) : emits quiet (traceroute env host).
Proof.
  unfold traceroute.
  apply emits_bind; auto with emits; [ apply resolve_host_quiet | intro ip ].
  apply emits_if; [ apply print_quiet | ].
  apply emits_bind; auto with emits; [ apply print_quiet | intros _ ].
  cbv zeta.
  apply emits_try; auto with emits.
  - quiet_steps.
  - intros e h He. destruct e; try discriminate.
    injection He as <-. apply print_quiet.
Qed.

End Steps.

(** ** Reading the events of a scan *)

Lemma connects_app (a b : list event) :
  connects (a ++ b) = (connects a ++ connects b)%list.
Proof. apply flat_map_app. Qed.

Lemma stdout_app (a b : list event) :
  stdout (a ++ b) = (stdout a ++ stdout b)%list.
Proof. apply flat_map_app. Qed.

Lemma connect_timeouts_app (a b : list event) :
  connect_timeouts (a ++ b) = (connect_timeouts a ++ connect_timeouts b)%list.
Proof. apply flat_map_app. Qed.

Lemma connects_quiet (seg : list event) : quiet seg -> connects seg = [].
Proof.
  unfold quiet. induction seg as [ | e seg IH ]; [ reflexivity | ].
  cbn [forallb]. intros H. apply andb_prop in H as [ He Hseg ].
  destruct e; try discriminate; cbn; auto.
Qed.

Lemma connects_blocks (ip : string) (prs : list (Z * Z)) :
  forall timeout, connects (loop_blocks ip timeout prs) = prs.
Proof.
  induction prs as [ | [ port errno ] rest IH ]; intro timeout;
    [ reflexivity | ].
  cbn [loop_blocks]. rewrite connects_app, IH. reflexivity.
Qed.

Lemma stdout_blocks (ip : string) (prs : list (Z * Z)) :
  forall timeout, stdout (loop_blocks ip timeout prs) = map status_line prs.
Proof.
  induction prs as [ | pr rest IH ]; intro timeout; [ reflexivity | ].
  cbn [loop_blocks]. rewrite stdout_app, IH. reflexivity.
Qed.

(** The first attempt runs under the timeout the loop started with, the
    later ones under one second. *)
Lemma connect_timeouts_blocks (ip : string) (prs : list (Z * Z))
  (timeout : option Z) :
  connect_timeouts (loop_blocks ip timeout prs) =
  match prs with
  | [] => []
  | _ :: rest => timeout :: repeat (Some 1) (List.length rest)
  end.
Proof.
  revert timeout.
  induction prs as [ | pr rest IH ]; intro timeout; [ reflexivity | ].
  cbn [loop_blocks]. rewrite connect_timeouts_app, IH.
  destruct rest; reflexivity.
Qed.

Lemma status_line_is_status_line (pr : Z * Z) :
  is_status_line (status_line pr) = true.
Proof.
  unfold status_line, msg_open, msg_closed.
  destruct (snd pr =? 0); reflexivity.
Qed.

Lemma summary_line_is_not_status_line (open_ports : list Z) :
  is_status_line (summary_line open_ports) = false.
Proof. destruct open_ports; reflexivity. Qed.

Lemma report_lines_status (prs : list (Z * Z)) :
  filter is_status_line (map status_line prs) = map status_line prs.
Proof.
  induction prs as [ | pr rest IH ]; [ reflexivity | ].
  cbn [map filter]. now rewrite status_line_is_status_line, IH.
Qed.

Section ScanEvents.

Variable env : Env.

Lemma connects_scan_events (host ip : string) (timeout : option Z)
  (prs : list (Z * Z)) (t1 t2 : Z) :
  connects (scan_events env host ip timeout prs t1 t2) = prs.
Proof.
  unfold scan_events. rewrite !connects_app, connects_blocks.
  cbn. now rewrite app_nil_r.
Qed.

Lemma stdout_scan_events (host ip : string) (timeout : option Z)
  (prs : list (Z * Z)) (t1 t2 : Z) :
  stdout (scan_events env host ip timeout prs t1 t2) =
  ([ (msg_start host ip ++ nl)%string ]
   ++ map status_line prs
   ++ [ (msg_completed env (t2 - t1) ++ nl)%string;
        summary_line (map fst (filter is_open prs)) ])%list.
Proof.
  unfold scan_events. rewrite !stdout_app, stdout_blocks. reflexivity.
Qed.

Lemma report_lines_scan_events (host ip : string) (timeout : option Z)
  (prs : list (Z * Z)) (t1 t2 : Z) :
  report_lines (scan_events env host ip timeout prs t1 t2) =
  map status_line prs.
Proof.
  unfold report_lines. rewrite stdout_scan_events.
  rewrite !filter_app, report_lines_status.
  cbn [filter].
  rewrite summary_line_is_not_status_line.
  replace (is_status_line (msg_start host ip ++ nl)) with false
    by reflexivity.
  replace (is_status_line (msg_completed env (t2 - t1) ++ nl)) with false
    by reflexivity.
  cbn [app]. now rewrite app_nil_r.
Qed.

Lemma connect_timeouts_scan_events (host ip : string) (timeout : option Z)
  (prs : list (Z * Z)) (t1 t2 : Z) :
  connect_timeouts (scan_events env host ip timeout prs t1 t2) =
  match prs with
  | [] => []
  | _ :: rest => timeout :: repeat (Some 1) (List.length rest)
  end.
Proof.
  unfold scan_events.
  rewrite !connect_timeouts_app, connect_timeouts_blocks.
  cbn. now rewrite app_nil_r.
Qed.

End ScanEvents.

(** A port string never denotes the empty list: [split] always yields a
    field. *)
Lemma parse_ports_nonempty (ports : string) (port_list : list Z) :
  parse_ports ports = Ok port_list -> port_list <> [].
Proof.
  unfold parse_ports.
  assert (Hsplit : Py.split "," ports <> []).
  { destruct ports as [ | c s ]; cbn; [ discriminate | ].
    destruct (Ascii.eqb c ","); [ discriminate | ].
    destruct (Py.split "," s); discriminate. }
  destruct (Py.split "," ports) as [ | f fs ]; [ contradiction | ].
  cbn. destruct (Py.int f); [ | discriminate ].
  destruct (Py.comprehension Py.int fs); [ | discriminate ].
  intros [= <-]. discriminate.
Qed.

(** ** Every attempt is answered by its line *)

Lemma answered_nil : answered [].
Proof. intros [ | ? ? ] ? ? ? ? ? H; discriminate. Qed.

Lemma answered_cons (e : event) (seg : list event) :
  is_connect e = false -> answered seg -> answered (e :: seg).
Proof.
  intros He Hseg [ | e' pre ] post ip port timeout errno H;
    cbn [app] in H; injection H as -> ->.
  - discriminate.
  - eapply Hseg. reflexivity.
Qed.

Lemma answered_connect (ip : string) (port : Z) (timeout : option Z)
  (errno : Z) (seg : list event) :
  answered seg ->
  answered (ConnectEx ip port timeout errno
            :: Stdout (status_line (port, errno)) :: seg).
Proof.
  intros Hseg [ | e' pre ] post ip' port' timeout' errno' H;
    cbn [app] in H.
  - injection H as <- <- <- <- <-. now eexists.
  - injection H as _ H.
    eapply (answered_cons (Stdout _) seg); [ reflexivity | exact Hseg | ].
    exact H.
Qed.

Lemma answered_quiet (a b : list event) :
  quiet a -> answered b -> answered (a ++ b).
Proof.
  unfold quiet. induction a as [ | e a IH ]; intros Ha Hb; [ exact Hb | ].
  cbn [forallb] in Ha. apply andb_prop in Ha as [ He Ha ].
  cbn [app]. apply answered_cons; [ now destruct e | now apply IH ].
Qed.

Lemma answered_blocks (ip : string) (prs : list (Z * Z)) (rest : list event) :
  answered rest ->
  forall timeout, answered (loop_blocks ip timeout prs ++ rest).
Proof.
  intro Hrest.
  induction prs as [ | [ port errno ] prs IH ]; intro timeout; [ exact Hrest | ].
  cbn [loop_blocks probe_block app fst snd].
  do 2 (apply answered_cons; [ reflexivity | ]).
  apply answered_connect.
  apply answered_cons; [ reflexivity | ]. apply IH.
Qed.

(** ** At most one socket at a time *)





Ltac in_trace := repeat (try (left; reflexivity); right).

(** * The scanner's classification of a probe *)

(** C1, as stated, fails: a probe whose one-second deadline passes
    ([connect_ex] returns EAGAIN) is reported with the very line of a
    closed port.  Scanning "80,81" in the lab, port 81 is silent and
    its line is "[-] Port 81: Closed". *)
Lemma timed_out_probe_is_reported_closed :
  ~ (forall (env : Env) (host ports ip : string) (port : Z)
            (timeout : option Z),
       In (ConnectEx ip port timeout Errno.EAGAIN)
          (trace (snd (scan_ports env host ports fresh))) ->
       ~ In (Stdout (msg_closed port ++ nl))
            (trace (snd (scan_ports env host ports fresh)))).
Proof.
  intro H.
  apply (H Examples.lab "example.org" "80,81" "192.0.2.7" 81 (Some 1));
    vm_compute; in_trace.
Qed.

(** C1, amended: the scan knows two states.  Every connect attempt of a
    scan is followed at once by its line, which is the Open line when
    [connect_ex] returned 0 and the Closed line for every other return
    value, be it a refusal, an expired deadline or any other error. *)
Theorem scan_reports_open_or_closed
  (env : Env) (host ports : string) (w : World) :
  exists seg : list event,
    trace (snd (scan_ports env host ports w)) = (trace w ++ seg)%list /\
    forall (pre post : list event) (ip : string) (port : Z)
           (timeout : option Z) (errno : Z),
      seg = (pre ++ ConnectEx ip port timeout errno :: post)%list ->
      exists post',
        post = Stdout ((if errno =? 0 then msg_open port
                        else msg_closed port) ++ nl) :: post'.
Proof.
  destruct (scan_ports_shape env host ports w)
    as (pre & ip & timeout & prs & post & Htrace & Hpre & Hpost & _).
  exists (pre ++ loop_blocks ip timeout prs ++ post)%list.
  split; [ exact Htrace | ].
  change (answered (pre ++ loop_blocks ip timeout prs ++ post)).
  apply answered_quiet; [ exact Hpre | ].
  apply answered_blocks.
  destruct Hpost as [ Hquiet | [ t -> ] ].
  - rewrite <- (app_nil_r post).
    apply answered_quiet; [ exact Hquiet | apply answered_nil ].
  - do 2 (apply answered_cons; [ reflexivity | ]). apply answered_nil.
Qed.

(** * How many probes, and in which order *)

(** C2, as stated, fails: duplicates do not collapse.  Scanning
    "80,443,80" probes port 80 twice and prints three result lines for
    two distinct ports. *)
Lemma duplicate_port_is_probed_twice :
  ~ (forall (env : Env) (host ports : string) (port_list : list Z),
       parse_ports ports = Ok port_list ->
       NoDup (probed_ports (trace (snd (scan_ports env host ports fresh))))
       /\ List.length
            (report_lines (trace (snd (scan_ports env host ports fresh))))
          = List.length (nodup Z.eq_dec port_list)).
Proof.
  intro H.
  destruct (H Examples.lab "example.org" "80,443,80" [80; 443; 80] eq_refl)
    as [ _ Hlen ].
  vm_compute in Hlen. discriminate.
Qed.

(** C2, amended: every entry of the port list is probed exactly once,
    duplicates included.  When the host resolves and the port string is
    well formed (plain entries that read as ports [connect_ex]
    accepts), the probed ports are the entries of the list one for one,
    so a port written k times is probed k times, and there are as many
    result lines as entries. *)
Theorem scan_probes_every_entry_once
  (env : Env) (host ports ip : string) (port_list : list Z) (w : World) :
  gethostbyname env (trace w) host = Ok ip ->
  ip <> "" ->
  plain_entries ports = true ->
  parse_ports ports = Ok port_list ->
  forallb valid_port port_list = true ->
  exists seg : list event,
    trace (snd (scan_ports env host ports w)) = (trace w ++ seg)%list /\
    probed_ports seg = port_list /\
    (forall port : Z,
       count_occ Z.eq_dec (probed_ports seg) port
       = count_occ Z.eq_dec port_list port) /\
    List.length (report_lines seg) = List.length port_list.
Proof.
  intros Hres Hip _ Hparse Hvalid.
  destruct (scan_ports_ok env host ports ip port_list w Hres Hip Hparse Hvalid)
    as (prs & t1 & t2 & Hprs & _ & Htrace).
  eexists. split; [ exact Htrace | ].
  unfold probed_ports.
  rewrite connects_scan_events, report_lines_scan_events, Hprs.
  repeat split.
  now rewrite length_map, <- Hprs, length_map.
Qed.

(** The theorem on the scan of "80,443,80" in the lab. *)
Lemma scan_probes_every_entry_once_witness :
  gethostbyname Examples.lab (trace fresh) "example.org" = Ok "192.0.2.7" /\
  "192.0.2.7" <> "" /\
  plain_entries "80,443,80" = true /\
  parse_ports "80,443,80" = Ok [80; 443; 80] /\
  forallb valid_port [80; 443; 80] = true /\
  exists seg : list event,
    trace (snd (scan_ports Examples.lab "example.org" "80,443,80" fresh))
      = (trace fresh ++ seg)%list /\
    probed_ports seg = [80; 443; 80] /\
    (forall port : Z,
       count_occ Z.eq_dec (probed_ports seg) port
       = count_occ Z.eq_dec [80; 443; 80] port) /\
    List.length (report_lines seg) = List.length [80; 443; 80].
Proof.
  assert (H1 : gethostbyname Examples.lab (trace fresh) "example.org"
               = Ok "192.0.2.7") by reflexivity.
  assert (H2 : "192.0.2.7" <> "") by discriminate.
  assert (Hp : plain_entries "80,443,80" = true) by reflexivity.
  assert (H3 : parse_ports "80,443,80" = Ok [80; 443; 80]) by reflexivity.
  assert (H4 : forallb valid_port [80; 443; 80] = true) by reflexivity.
  repeat (split; [ assumption | ]).
  exact (scan_probes_every_entry_once Examples.lab "example.org" "80,443,80"
           "192.0.2.7" [80; 443; 80] fresh H1 H2 Hp H3 H4).
Defined.

(** C3, as stated, fails: the report is not in the order of first
    appearance.  Scanning "80,443,80" reports 80, 443 and 80 again, and
    the summary lists the open port 80 twice, where first appearance
    gives 80, 443. *)
Lemma report_repeats_a_port_where_it_is_written_again :
  ~ (forall (env : Env) (host ports : string) (port_list : list Z),
       parse_ports ports = Ok port_list ->
       probed_ports (trace (snd (scan_ports env host ports fresh)))
       = first_appearance port_list).
Proof.
  intro H.
  specialize (H Examples.lab "example.org" "80,443,80" [80; 443; 80] eq_refl).
  vm_compute in H. discriminate.
Qed.

(** C3, amended: the report follows the input entry by entry.  When the
    host resolves and the port string is well formed (plain entries that
    read as ports [connect_ex] accepts), whatever the network answers
    and however long each answer takes, the ports are probed and their
    result lines printed in the order of the entries of the list, a
    repeated port again at each place it is written, each line being
    the line of its own entry, and the summary, printed last, lists the
    open entries in that same order. *)
Theorem scan_reports_in_input_order
  (env : Env) (host ports ip : string) (port_list : list Z) (w : World) :
  gethostbyname env (trace w) host = Ok ip ->
  ip <> "" ->
  plain_entries ports = true ->
  parse_ports ports = Ok port_list ->
  forallb valid_port port_list = true ->
  exists seg : list event,
    trace (snd (scan_ports env host ports w)) = (trace w ++ seg)%list /\
    map fst (connects seg) = port_list /\
    report_lines seg = map status_line (connects seg) /\
    last (stdout seg) ""
    = summary_line (map fst (filter is_open (connects seg))).
Proof.
  intros Hres Hip _ Hparse Hvalid.
  destruct (scan_ports_ok env host ports ip port_list w Hres Hip Hparse Hvalid)
    as (prs & t1 & t2 & Hprs & _ & Htrace).
  eexists. split; [ exact Htrace | ].
  rewrite connects_scan_events, report_lines_scan_events, stdout_scan_events.
  repeat split; [ exact Hprs | ].
  change [ (msg_completed env (t2 - t1) ++ nl)%string;
           summary_line (map fst (filter is_open prs)) ]
    with ([ (msg_completed env (t2 - t1) ++ nl)%string ]
          ++ [ summary_line (map fst (filter is_open prs)) ])%list.
  rewrite !app_assoc. apply last_last.
Qed.

(** The theorem on the scan of "443,80,81" in the lab. *)
Lemma scan_reports_in_input_order_witness :
  gethostbyname Examples.lab (trace fresh) "example.org" = Ok "192.0.2.7" /\
  "192.0.2.7" <> "" /\
  plain_entries "443,80,81" = true /\
  parse_ports "443,80,81" = Ok [443; 80; 81] /\
  forallb valid_port [443; 80; 81] = true /\
  exists seg : list event,
    trace (snd (scan_ports Examples.lab "example.org" "443,80,81" fresh))
      = (trace fresh ++ seg)%list /\
    map fst (connects seg) = [443; 80; 81] /\
    report_lines seg = map status_line (connects seg) /\
    last (stdout seg) ""
    = summary_line (map fst (filter is_open (connects seg))).
Proof.
  assert (H1 : gethostbyname Examples.lab (trace fresh) "example.org"
               = Ok "192.0.2.7") by reflexivity.
  assert (H2 : "192.0.2.7" <> "") by discriminate.
  assert (Hp : plain_entries "443,80,81" = true) by reflexivity.
  assert (H3 : parse_ports "443,80,81" = Ok [443; 80; 81]) by reflexivity.
  assert (H4 : forallb valid_port [443; 80; 81] = true) by reflexivity.
  repeat (split; [ assumption | ]).
  exact (scan_reports_in_input_order Examples.lab "example.org" "443,80,81"
           "192.0.2.7" [443; 80; 81] fresh H1 H2 Hp H3 H4).
Defined.

(** * Connect attempts outstanding at a time *)

Lemma outstanding_app (a b : list event) :
  outstanding (a ++ b) = outstanding a + outstanding b.
Proof.
  unfold outstanding. induction a as [ | e a IH ]; [ reflexivity | ].
  cbn [app fold_right]. rewrite IH. lia.
Qed.

Lemma outstanding_blocks (ip : string) (prs : list (Z * Z)) :
  forall timeout, outstanding (loop_blocks ip timeout prs) = 0.
Proof.
  induction prs as [ | pr prs IH ]; intro timeout; [ reflexivity | ].
  cbn [loop_blocks]. rewrite outstanding_app, IH. reflexivity.
Qed.










(** * The empty port set *)

(** C5, as stated, fails: handed the empty port string, a scan of a host
    that resolves raises [ValueError] (the one field of the split is the
    empty string) and prints no report. *)
Lemma empty_port_string_raises :
  ~ (forall (env : Env) (host : string) (w : World),
       fst (scan_ports env host "" w) = Ok tt).
Proof.
  intro H. specialize (H Examples.lab "example.org" fresh).
  vm_compute in H. discriminate.
Qed.

(** C5, amended: an empty port set never reaches the scanner.  A port
    string that parses has at least one entry, and [main] enters the
    scan step only for a non-empty [-s] value: with an empty one, and
    without [-a], the run is the run without [-s]; no socket is created,
    nothing is probed and nothing is raised by a scan. *)
Theorem empty_scan_argument_skips_the_scan
  (env : Env) (args : Namespace) (w : World) :
  args_all args = false ->
  args_scan args = Some "" ->
  main_args env args w
  = main_args env
      (mkNamespace (args_host args) (args_ping args) None
         (args_traceroute args) false) w
  /\ (exists seg : list event,
        trace (snd (main_args env args w)) = (trace w ++ seg)%list
        /\ forallb passive seg = true)
  /\ (forall (ports : string) (port_list : list Z),
        parse_ports ports = Ok port_list -> port_list <> []).
Proof.
  intros Hall Hscan.
  split; [ | split ].
  - unfold main_args. cbn [args_host args_ping args_scan args_traceroute
                           args_all].
    now rewrite Hall, Hscan.
  - revert w.
    change (emits quiet (main_args env args)).
    unfold main_args. rewrite Hall, Hscan. cbn [truthy String.eqb negb].
    apply emits_bind; auto with emits; [ apply print_quiet | intros _ ].
    apply emits_bind; auto with emits;
      [ apply resolve_host_quiet | intro ip ].
    apply emits_bind; auto with emits;
      [ apply emits_if; apply print_quiet | intros _ ].
    apply emits_bind; auto with emits;
      [ apply emits_if; [ apply ping_host_quiet | ] | intros _ ].
    { apply emits_ret; auto with emits. }
    apply emits_bind; auto with emits;
      [ apply emits_ret; auto with emits | intros _ ].
    apply emits_if; [ apply traceroute_quiet | ].
    apply emits_ret; auto with emits.
  - exact parse_ports_nonempty.
Qed.

(** The theorem on "-p -s '' -t" in the lab. *)
Lemma empty_scan_argument_skips_the_scan_witness :
  args_all (mkNamespace "example.org" true (Some "") true false) = false /\
  args_scan (mkNamespace "example.org" true (Some "") true false) = Some "" /\
  (main_args Examples.lab
     (mkNamespace "example.org" true (Some "") true false) fresh
   = main_args Examples.lab
       (mkNamespace "example.org" true None true false) fresh
   /\ (exists seg : list event,
         trace (snd (main_args Examples.lab
                       (mkNamespace "example.org" true (Some "") true false)
                       fresh))
         = (trace fresh ++ seg)%list
         /\ forallb passive seg = true)
   /\ (forall (ports : string) (port_list : list Z),
         parse_ports ports = Ok port_list -> port_list <> [])).
Proof.
  split; [ reflexivity | split; [ reflexivity | ] ].
  exact (empty_scan_argument_skips_the_scan Examples.lab
           (mkNamespace "example.org" true (Some "") true false) fresh
           eq_refl eq_refl).
Defined.

(** * Failures that end the run *)

(** C7 does not hold of the script: a malformed or out-of-range entry in
    the [-s] list ends the whole run with an uncaught exception.  With
    "-p -s 80,http -t" the ping runs, [int("http")] raises [ValueError]
    before any port is probed, the process ends with status 1 and the
    traceroute that was asked for never starts; with "-s 80,70000 -t"
    port 80 is reported, then [connect_ex] raises [OverflowError] and
    again no traceroute is run. *)
Theorem malformed_port_list_aborts_the_run :
  (fst (run Examples.lab
          [ "net_diag_tool.py"; "example.org"; "-p"; "-s"; "80,http"; "-t" ])
   = Raise (ValueError "http")
   /\ exit_code (fst (run Examples.lab
          [ "net_diag_tool.py"; "example.org"; "-p"; "-s"; "80,http"; "-t" ]))
      = 1
   /\ probed_ports (trace (snd (run Examples.lab
          [ "net_diag_tool.py"; "example.org"; "-p"; "-s"; "80,http"; "-t" ])))
      = []
   /\ spawned (trace (snd (run Examples.lab
          [ "net_diag_tool.py"; "example.org"; "-p"; "-s"; "80,http"; "-t" ])))
      = [ [ "ping"; "-c"; "1"; "example.org" ] ])
  /\ (fst (run Examples.lab
             [ "net_diag_tool.py"; "example.org"; "-s"; "80,70000"; "-t" ])
      = Raise OverflowError
      /\ exit_code (fst (run Examples.lab
             [ "net_diag_tool.py"; "example.org"; "-s"; "80,70000"; "-t" ]))
         = 1
      /\ probed_ports (trace (snd (run Examples.lab
             [ "net_diag_tool.py"; "example.org"; "-s"; "80,70000"; "-t" ])))
         = [ 80 ]
      /\ spawned (trace (snd (run Examples.lab
             [ "net_diag_tool.py"; "example.org"; "-s"; "80,70000"; "-t" ])))
         = []).
Proof. vm_compute. repeat split. Qed.

(** * The deadline of a probe *)

(** C8 does not hold of the script: the loop creates the socket first
    and sets the default timeout afterwards, so the first socket of a
    process is created while the default is still [None] and its connect
    attempt has no deadline; only the later probes run under one second.
    In a scan that runs to its end, the first attempt runs under the
    default timeout the scan found and every later one under 1. *)
Theorem first_probe_runs_under_the_old_default
  (env : Env) (host ports ip : string) (port_list : list Z) (w : World) :
  gethostbyname env (trace w) host = Ok ip ->
  ip <> "" ->
  parse_ports ports = Ok port_list ->
  forallb valid_port port_list = true ->
  exists seg : list event,
    trace (snd (scan_ports env host ports w)) = (trace w ++ seg)%list /\
    connect_timeouts seg
    = default_timeout w :: repeat (Some 1) (List.length port_list - 1).
Proof.
  intros Hres Hip Hparse Hvalid.
  destruct (scan_ports_ok env host ports ip port_list w Hres Hip Hparse Hvalid)
    as (prs & t1 & t2 & Hprs & _ & Htrace).
  eexists. split; [ exact Htrace | ].
  rewrite connect_timeouts_scan_events.
  pose proof (parse_ports_nonempty ports port_list Hparse) as Hne.
  rewrite <- Hprs in Hne |- *.
  destruct prs as [ | pr rest ]; [ contradiction | ].
  cbn [map List.length Nat.sub]. now rewrite ?Nat.sub_0_r, length_map.
Qed.

(** The theorem on the scan of "81,81" in a fresh interpreter: the first
    attempt runs under [None]. *)
Lemma first_probe_runs_under_the_old_default_witness :
  gethostbyname Examples.lab (trace fresh) "example.org" = Ok "192.0.2.7" /\
  "192.0.2.7" <> "" /\
  parse_ports "81,81" = Ok [81; 81] /\
  forallb valid_port [81; 81] = true /\
  exists seg : list event,
    trace (snd (scan_ports Examples.lab "example.org" "81,81" fresh))
    = (trace fresh ++ seg)%list /\
    connect_timeouts seg
    = default_timeout fresh :: repeat (Some 1) (List.length [81; 81] - 1).
Proof.
  assert (H1 : gethostbyname Examples.lab (trace fresh) "example.org"
               = Ok "192.0.2.7") by reflexivity.
  assert (H2 : "192.0.2.7" <> "") by discriminate.
  assert (H3 : parse_ports "81,81" = Ok [81; 81]) by reflexivity.
  assert (H4 : forallb valid_port [81; 81] = true) by reflexivity.
  repeat (split; [ assumption | ]).
  exact (first_probe_runs_under_the_old_default Examples.lab "example.org"
           "81,81" "192.0.2.7" [81; 81] fresh H1 H2 H3 H4).
Defined.

(** * The exit status *)

Lemma succeeds_ret {A : Type} (a : A) : succeeds (ret a).
Proof. intro w. now exists a. Qed.

Lemma succeeds_emit (e : event) : succeeds (emit e).
Proof. intro w. now exists tt. Qed.

Lemma succeeds_bind {A B : Type} (m : M A) (k : A -> M B) :
  succeeds m -> (forall a, succeeds (k a)) -> succeeds (bind m k).
Proof.
  intros Hm Hk w. unfold bind.
  destruct (Hm w) as [ a Ha ].
  destruct (m w) as [ r w1 ]. cbn [fst] in Ha. subst r.
  apply Hk.
Qed.

Lemma succeeds_if {A : Type} (b : bool) (m1 m2 : M A) :
  succeeds m1 -> succeeds m2 -> succeeds (if b then m1 else m2).
Proof. now destruct b. Qed.

Lemma succeeds_write_lines (lines : list string) : succeeds (write_lines lines).
Proof.
  induction lines as [ | line rest IH ]; cbn [write_lines].
  - apply succeeds_ret.
  - apply succeeds_bind; [ apply succeeds_emit | intros _; exact IH ].
Qed.

Section Tame.

Variable env : Env.
Hypothesis Htame : tame env.

Lemma resolve_host_succeeds (hostname : string) :
  succeeds (resolve_host env hostname).
Proof.
  intro w. unfold resolve_host, try_except, socket_gethostbyname, bind, ret.
  destruct (gethostbyname env (trace w) hostname) as [ ip | e ] eqn:Hres.
  - now eexists.
  - destruct Htame as [ Hgai _ ]. rewrite (Hgai _ _ _ Hres). now eexists.
Qed.

Lemma ping_host_succeeds (host : string) : succeeds (ping_host env host).
Proof.
  unfold ping_host. cbv zeta.
  apply succeeds_bind; [ apply succeeds_emit | intros _ ].
  intro w. unfold try_except, subprocess_check_output, bind, print, emit.
  destruct (check_output env (trace w) _) as [ output | e ] eqn:Hout.
  - now eexists.
  - destruct Htame as ( _ & Hping & _ ).
    destruct (Hping _ _ _ Hout) as [ -> | -> ]; now eexists.
Qed.

Lemma traceroute_succeeds (host : string) : succeeds (traceroute env host).
Proof.
  unfold traceroute.
  apply succeeds_bind; [ apply resolve_host_succeeds | intro ip ].
  apply succeeds_if; [ apply succeeds_emit | ].
  apply succeeds_bind; [ apply succeeds_emit | intros _ ].
  cbv zeta.
  intro w. unfold try_except, subprocess_Popen, bind.
  destruct (popen env (trace w) _) as [ lines | e ] eqn:Hout.
  - match goal with
    | |- context [ write_lines lines ?w1 ] =>
        destruct (succeeds_write_lines lines w1) as [ [] Hok ];
        destruct (write_lines lines w1) as [ r w2 ]
    end.
    cbn [fst] in Hok. subst r. now eexists.
  - destruct Htame as ( _ & _ & Htr ).
    rewrite (Htr _ _ _ Hout). now eexists.
Qed.

Lemma scan_ports_succeeds (host ports : string) :
  well_formed ports = true -> succeeds (scan_ports env host ports).
Proof.
  unfold well_formed. intros Hwf w.
  apply andb_prop in Hwf as [ _ Hports ].
  rewrite scan_ports_eq. cbv zeta.
  destruct (gethostbyname env (trace w) host) as [ ip | e ] eqn:Hres.
  - destruct (String.eqb ip ""); [ now eexists | ].
    destruct (parse_ports ports) as [ port_list | e ]; [ | discriminate ].
    match goal with
    | |- context [ scan_loop env ip port_list [] ?w1 ] =>
        destruct (scan_loop_ok env ip port_list Hports [] w1)
          as (prs & _ & Hrun);
        rewrite Hrun
    end.
    now eexists.
  - destruct Htame as [ Hgai _ ]. rewrite (Hgai _ _ _ Hres). now eexists.
Qed.

Lemma main_args_succeeds (args : Namespace) :
  args_all args = true
  \/ truthy (args_scan args) = false
  \/ well_formed (value (args_scan args)) = true ->
  succeeds (main_args env args).
Proof.
  intro Hscan. unfold main_args.
  apply succeeds_bind; [ apply succeeds_emit | intros _ ].
  apply succeeds_bind; [ apply resolve_host_succeeds | intro ip ].
  apply succeeds_bind;
    [ apply succeeds_if; apply succeeds_emit | intros _ ].
  destruct (args_all args).
  - apply succeeds_bind; [ apply ping_host_succeeds | intros _ ].
    apply succeeds_bind; [ now apply scan_ports_succeeds | intros _ ].
    apply traceroute_succeeds.
  - apply succeeds_bind;
      [ apply succeeds_if; [ apply ping_host_succeeds | apply succeeds_ret ]
      | intros _ ].
    apply succeeds_bind;
      [ | intros _; apply succeeds_if;
                      [ apply traceroute_succeeds | apply succeeds_ret ] ].
    destruct (truthy (args_scan args)); [ | apply succeeds_ret ].
    apply scan_ports_succeeds.
    destruct Hscan as [ H | [ H | H ] ]; (discriminate || exact H).
Qed.

End Tame.

(** C9, as stated, fails: a command line with arguments that argparse
    rejects ends with status 2, not 0.  "net_diag_tool.py -p" lacks the
    host. *)
Lemma usage_error_exits_with_2 :
  ~ (forall (env : Env) (argv : list string),
       List.length argv <> 1%nat -> exit_code (fst (run env argv)) = 0).
Proof.
  intro H.
  specialize (H Examples.lab [ "net_diag_tool.py"; "-p" ]).
  vm_compute in H.
  assert (E : Z.pos 2 = 0) by (apply H; discriminate).
  discriminate.
Qed.

(** C9, amended: without arguments the help goes to standard error and
    the status is 1; when argparse ends the run (a usage error, or
    [-h]) the status is the parser's own, 2 for a usage error; and when
    the command line is accepted the status is 0 whatever the steps
    report: an unresolvable host, an unreachable host, a missing ping or
    traceroute executable, closed ports.  (Stated for collaborators that
    raise only what the script expects and for a well-formed port
    string: plain entries that read as ports [connect_ex] accepts.) *)
Theorem exit_status_of_a_run (env : Env) (argv : list string) :
  tame env ->
  scan_argument_ok env argv ->
  exit_code (fst (run env argv))
  = (if (List.length argv =? 1)%nat then 1
     else match parse_args env (tl argv) with
          | ParserExit _ code => code
          | Parsed _ => 0
          end)
  /\ ((List.length argv =? 1)%nat = true ->
      trace (snd (run env argv))
      = [ Stdout (banner ++ nl); Stderr (format_help env) ]).
Proof.
  intros Htame Hscan. unfold scan_argument_ok in Hscan.
  unfold run, main, print_banner.
  unfold bind at 1 3. unfold print, emit at 1 3.
  destruct (List.length argv =? 1)%nat.
  - split; [ reflexivity | intros _; reflexivity ].
  - split; [ | discriminate ].
    unfold bind at 1. cbn [ret].
    destruct (parse_args env (tl argv)) as [ args | message code ].
    + destruct (main_args_succeeds env Htame args Hscan
                  (mkWorld (default_timeout fresh)
                     (trace fresh ++ [ Stdout (banner ++ nl) ])))
        as [ [] Hok ].
      now rewrite Hok.
    + reflexivity.
Qed.

Lemma offline_is_tame : tame Examples.offline.
Proof.
  repeat split; cbn; intros; try congruence.
  left. congruence.
Qed.

Lemma offline_all_is_ok :
  scan_argument_ok Examples.offline
    [ "net_diag_tool.py"; "nowhere.invalid"; "-a" ].
Proof. left. reflexivity. Qed.

(** The theorem on "-a" for a host that does not resolve, cannot be
    pinged and with traceroute missing: the status is 0. *)
Lemma exit_status_of_a_run_witness :
  tame Examples.offline /\
  scan_argument_ok Examples.offline
    [ "net_diag_tool.py"; "nowhere.invalid"; "-a" ] /\
  exit_code (fst (run Examples.offline
                    [ "net_diag_tool.py"; "nowhere.invalid"; "-a" ]))
  = 0.
Proof.
  split; [ exact offline_is_tame | split; [ exact offline_all_is_ok | ] ].
  exact (proj1 (exit_status_of_a_run Examples.offline
                  [ "net_diag_tool.py"; "nowhere.invalid"; "-a" ]
                  offline_is_tame offline_all_is_ok)).
Defined.

(** * The all-checks flag *)

Lemma probes_default_nil : probes_default_ports [].
Proof. intros p []. Qed.

Lemma probes_default_app (a b : list event) :
  probes_default_ports a -> probes_default_ports b ->
  probes_default_ports (a ++ b).
Proof.
  unfold probes_default_ports, probed_ports. intros Ha Hb.
  rewrite connects_app, map_app. now apply incl_app.
Qed.

#[local] Hint Resolve probes_default_nil probes_default_app : emits.

Lemma quiet_probes_default (seg : list event) :
  quiet seg -> probes_default_ports seg.
Proof.
  intro H. unfold probes_default_ports, probed_ports.
  rewrite (connects_quiet seg H). intros p [].
Qed.

Lemma emits_quiet_probes_default {A : Type} (m : M A) :
  emits quiet m -> emits probes_default_ports m.
Proof.
  intros H w. destruct (H w) as [ seg [ Htrace Hquiet ] ].
  exists seg. split; [ exact Htrace | now apply quiet_probes_default ].
Qed.

Lemma scan_of_common_ports_probes_default (env : Env) (host : string) :
  emits probes_default_ports (scan_ports env host common_ports).
Proof.
  intro w.
  destruct (scan_ports_shape env host common_ports w)
    as (pre & ip & timeout & prs & post & Htrace & Hpre & Hpost & Hprs).
  eexists. split; [ exact Htrace | ].
  unfold probes_default_ports, probed_ports.
  rewrite !connects_app, connects_blocks, (connects_quiet pre Hpre).
  replace (connects post) with (@nil (Z * Z)).
  - cbn [app]. rewrite app_nil_r.
    destruct Hprs as [ -> | (port_list & rest & Hparse & Hsplit) ].
    + intros p [].
    + vm_compute in Hparse. injection Hparse as <-.
      unfold default_ports. rewrite Hsplit. now apply incl_appl, incl_refl.
  - destruct Hpost as [ Hquiet | [ t -> ] ];
      [ now rewrite (connects_quiet post Hquiet) | reflexivity ].
Qed.

(** [bind] is associative, world by world. *)
Lemma bind_assoc {A B C : Type} (m : M A) (k : A -> M B) (k' : B -> M C)
  (w : World) :
  bind (bind m k) k' w = bind m (fun a => bind (k a) k') w.
Proof. unfold bind. now destruct (m w) as [ [ a | e ] w1 ]. Qed.

Lemma bind_ext {A B : Type} (m : M A) (k k' : A -> M B) (w : World) :
  (forall a w1, k a w1 = k' a w1) -> bind m k w = bind m k' w.
Proof.
  intro H. unfold bind. destruct (m w) as [ [ a | e ] w1 ]; [ apply H | easy ].
Qed.

(** C10: with [-a] only the fixed sequence runs.  The run is the run of
    the same host with [-p], [-s] and [-t] absent; it is the resolution
    followed by ping, the scan of 21,22,80,443,3306,8000,8080 and
    traceroute; and every port it probes is one of these seven, so a
    list given with [-s] is not scanned. *)
Theorem all_flag_runs_only_the_fixed_sequence
  (env : Env) (args : Namespace) (w : World) :
  args_all args = true ->
  main_args env args w
  = main_args env (mkNamespace (args_host args) false None false true) w
  /\ main_args env args w
     = (resolve_first env (args_host args) ;;
        all_checks env (args_host args)) w
  /\ exists seg : list event,
       trace (snd (main_args env args w)) = (trace w ++ seg)%list
       /\ incl (probed_ports seg) [ 21; 22; 80; 443; 3306; 8000; 8080 ].
Proof.
  intro Hall.
  assert (Hseq : main_args env args w
                 = (resolve_first env (args_host args) ;;
                    all_checks env (args_host args)) w).
  { unfold main_args, resolve_first, all_checks. rewrite Hall.
    rewrite bind_assoc. apply bind_ext. intros _ w1.
    now rewrite bind_assoc. }
  split; [ | split; [ exact Hseq | ] ].
  - unfold main_args. cbn [args_host args_all]. now rewrite Hall.
  - rewrite Hseq. clear Hseq. revert w.
    change (emits probes_default_ports
              (resolve_first env (args_host args) ;;
               all_checks env (args_host args))).
    unfold resolve_first, all_checks.
    apply emits_bind; auto with emits.
    + apply emits_quiet_probes_default.
      apply emits_bind; auto with emits; [ apply print_quiet | intros _ ].
      apply emits_bind; auto with emits;
        [ apply resolve_host_quiet | intro ip ].
      apply emits_if; apply print_quiet.
    + intros _.
      apply emits_bind; auto with emits;
        [ apply emits_quiet_probes_default, ping_host_quiet | intros _ ].
      apply emits_bind; auto with emits;
        [ apply scan_of_common_ports_probes_default | intros _ ].
      apply emits_quiet_probes_default, traceroute_quiet.
Qed.

(** The theorem on "-p -s 9999,abc -t -a" in the lab. *)
Lemma all_flag_runs_only_the_fixed_sequence_witness :
  args_all (mkNamespace "example.org" true (Some "9999,abc") true true) = true
  /\ (main_args Examples.lab
        (mkNamespace "example.org" true (Some "9999,abc") true true) fresh
      = main_args Examples.lab
          (mkNamespace "example.org" false None false true) fresh
      /\ main_args Examples.lab
           (mkNamespace "example.org" true (Some "9999,abc") true true) fresh
         = (resolve_first Examples.lab "example.org" ;;
            all_checks Examples.lab "example.org") fresh
      /\ exists seg : list event,
           trace (snd (main_args Examples.lab
                         (mkNamespace "example.org" true (Some "9999,abc")
                            true true) fresh))
           = (trace fresh ++ seg)%list
           /\ incl (probed_ports seg) [ 21; 22; 80; 443; 3306; 8000; 8080 ]).
Proof.
  split; [ reflexivity | ].
  exact (all_flag_runs_only_the_fixed_sequence Examples.lab
           (mkNamespace "example.org" true (Some "9999,abc") true true)
           fresh eq_refl).
Defined.

(** * Further properties of the script *)

(** ** Integers written and read back *)

Lemma list_ascii_of_string_app (a b : string) :
  list_ascii_of_string (a ++ b)
  = (list_ascii_of_string a ++ list_ascii_of_string b)%list.
Proof.
  induction a as [ | c a IH ]; [ reflexivity | ].
  cbn. now rewrite IH.
Qed.

Lemma string_app_assoc (a b c : string) : ((a ++ b) ++ c = a ++ (b ++ c))%string.
Proof.
  induction a as [ | x a IH ]; [ reflexivity | ].
  cbn. now rewrite IH.
Qed.

Lemma int_digits_uint_acc (d : Decimal.uint) :
  forall acc : positive,
    Py.int_digits (Z.pos acc) false
      (list_ascii_of_string (NilEmpty.string_of_uint d))
    = Some (Z.pos (Pos.of_uint_acc d acc)).
Proof.
  induction d as [ | d IH | d IH | d IH | d IH | d IH | d IH | d IH | d IH
                   | d IH | d IH ]; intro acc;
    [ reflexivity | .. ];
    cbn [NilEmpty.string_of_uint list_ascii_of_string Py.int_digits
         Pos.of_uint_acc];
    match goal with
    | |- context [ Py.is_digit ?c ] =>
        change (Py.is_digit c) with true; cbv iota
    end;
    rewrite <- IH; f_equal; unfold Py.digit_val;
    match goal with
    | |- context [ Z.of_nat (nat_of_ascii ?c) - 48 ] =>
        let v := eval vm_compute in (Z.of_nat (nat_of_ascii c) - 48) in
        change (Z.of_nat (nat_of_ascii c) - 48) with v
    end;
    lia.
Qed.

Lemma int_digits_uint (d : Decimal.uint) :
  Py.int_digits 0 false (list_ascii_of_string (NilEmpty.string_of_uint d))
  = Some (Z.of_uint d).
Proof.
  unfold Z.of_uint.
  induction d as [ | d IH | d IH | d IH | d IH | d IH | d IH | d IH | d IH
                   | d IH | d IH ];
    [ reflexivity | exact IH | .. ];
    cbn [NilEmpty.string_of_uint list_ascii_of_string Py.int_digits
         Pos.of_uint Z.of_N];
    match goal with
    | |- context [ Py.is_digit ?c ] =>
        change (Py.is_digit c) with true; cbv iota
    end;
    rewrite <- int_digits_uint_acc; f_equal.
Qed.

Lemma lstrip_blank (pad cs : list ascii) :
  Forall (fun c => Py.is_space c = true) pad ->
  Py.lstrip (pad ++ cs) = Py.lstrip cs.
Proof.
  induction 1 as [ | c pad Hc _ IH ]; [ reflexivity | ].
  cbn [app Py.lstrip]. now rewrite Hc.
Qed.

Lemma lstrip_solid (cs : list ascii) :
  Forall (fun c => Py.is_space c = false) cs -> Py.lstrip cs = cs.
Proof.
  destruct 1 as [ | c cs Hc _ ]; [ reflexivity | ].
  cbn [Py.lstrip]. now rewrite Hc.
Qed.

Lemma strip_padded (pad cs : list ascii) :
  Forall (fun c => Py.is_space c = true) pad ->
  Forall (fun c => Py.is_space c = false) cs ->
  Py.strip (pad ++ cs) = cs.
Proof.
  intros Hpad Hcs. unfold Py.strip.
  rewrite (lstrip_blank pad cs Hpad), (lstrip_solid cs Hcs).
  rewrite (lstrip_solid (rev cs)) by now apply Forall_rev.
  apply rev_involutive.
Qed.

Lemma uint_chars_solid (d : Decimal.uint) :
  Forall (fun c => Py.is_space c = false)
    (list_ascii_of_string (NilEmpty.string_of_uint d)).
Proof.
  induction d; cbn [NilEmpty.string_of_uint list_ascii_of_string];
    constructor; (reflexivity || assumption).
Qed.

Lemma int_body_uint (d : Decimal.uint) :
  d <> Decimal.Nil ->
  Py.int_body (list_ascii_of_string (NilEmpty.string_of_uint d))
  = Some (Z.of_uint d).
Proof.
  intro Hd. pose proof (int_digits_uint d) as H.
  destruct d; [ contradiction | .. ]; exact H.
Qed.

(** What [int] makes of the digits of a non-empty decimal, signed or
    not, behind white space. *)
Lemma int_of_decimal (pad : string) (d : Decimal.uint) (neg : bool) :
  blank pad ->
  d <> Decimal.Nil ->
  Py.int (pad ++ (if neg then String "-" (NilEmpty.string_of_uint d)
                  else NilEmpty.string_of_uint d))
  = Ok (if neg then - Z.of_uint d else Z.of_uint d).
Proof.
  intros Hpad Hd. unfold Py.int.
  rewrite list_ascii_of_string_app.
  pose proof (int_body_uint d Hd) as Hbody.
  pose proof (uint_chars_solid d) as Hsolid.
  destruct neg.
  - cbn [list_ascii_of_string].
    rewrite strip_padded;
      [ | exact Hpad | constructor; [ reflexivity | exact Hsolid ] ].
    now rewrite Hbody.
  - rewrite strip_padded; [ | exact Hpad | exact Hsolid ].
    destruct d; [ contradiction | .. ];
      cbn [NilEmpty.string_of_uint list_ascii_of_string] in Hbody |- *;
      cbv beta iota zeta; now rewrite Hbody.
Qed.

(** [int(str(n))] is [n], also behind white space. *)
Lemma int_str (pad : string) (n : Z) :
  blank pad -> Py.int (pad ++ Py.str n) = Ok n.
Proof.
  intro Hpad. unfold Py.str.
  destruct n as [ | p | p ]; cbn [Z.to_int NilZero.string_of_int].
  - apply (int_of_decimal pad (Decimal.D0 Decimal.Nil) false Hpad).
    discriminate.
  - pose proof (DecimalPos.Unsigned.to_uint_nonnil p) as Hnil.
    pose proof (DecimalZ.of_to (Z.pos p)) as Hval.
    cbn [Z.to_int Z.of_int] in Hval.
    replace (NilZero.string_of_uint (Pos.to_uint p))
      with (NilEmpty.string_of_uint (Pos.to_uint p))
      by (destruct (Pos.to_uint p); [ contradiction | reflexivity .. ]).
    rewrite (int_of_decimal pad _ false Hpad Hnil). now rewrite Hval.
  - pose proof (DecimalPos.Unsigned.to_uint_nonnil p) as Hnil.
    pose proof (DecimalZ.of_to (Z.neg p)) as Hval.
    cbn [Z.to_int Z.of_int] in Hval.
    replace (NilZero.string_of_uint (Pos.to_uint p))
      with (NilEmpty.string_of_uint (Pos.to_uint p))
      by (destruct (Pos.to_uint p); [ contradiction | reflexivity .. ]).
    rewrite (int_of_decimal pad _ true Hpad Hnil). now rewrite Hval.
Qed.

(** ** Port lists written and read back *)

Lemma split_nonempty (sep : ascii) (s : string) : Py.split sep s <> [].
Proof.
  destruct s as [ | c s ]; cbn; [ discriminate | ].
  destruct (Ascii.eqb c sep); [ discriminate | ].
  destruct (Py.split sep s); discriminate.
Qed.

Lemma split_solid (s : string) :
  Forall (fun c => Ascii.eqb c "," = false) (list_ascii_of_string s) ->
  Py.split "," s = [s].
Proof.
  induction s as [ | c s IH ]; [ reflexivity | ].
  cbn [list_ascii_of_string]. intro H.
  apply Forall_cons_iff in H as [ Hc Hs ].
  cbn [Py.split]. now rewrite Hc, (IH Hs).
Qed.

(** A separator cuts the fields on its left from the fields on its
    right. *)
Lemma split_app (sep : ascii) (a b : string) :
  Py.split sep (a ++ String sep b)
  = (Py.split sep a ++ Py.split sep b)%list.
Proof.
  induction a as [ | c a IH ].
  - cbn. now rewrite Ascii.eqb_refl.
  - cbn [append Py.split]. rewrite IH.
    destruct (Ascii.eqb c sep); [ reflexivity | ].
    pose proof (split_nonempty sep a) as Hne.
    destruct (Py.split sep a); [ contradiction | reflexivity ].
Qed.

Lemma uint_chars_no_comma (d : Decimal.uint) :
  Forall (fun c => Ascii.eqb c "," = false)
    (list_ascii_of_string (NilEmpty.string_of_uint d)).
Proof.
  induction d; cbn [NilEmpty.string_of_uint list_ascii_of_string];
    constructor; (reflexivity || assumption).
Qed.

Lemma str_no_comma (n : Z) :
  Forall (fun c => Ascii.eqb c "," = false) (list_ascii_of_string (Py.str n)).
Proof.
  assert (Hu : forall d,
    Forall (fun c => Ascii.eqb c "," = false)
      (list_ascii_of_string (NilZero.string_of_uint d))).
  { intro d. pose proof (uint_chars_no_comma d) as H.
    destruct d; try exact H. repeat constructor. }
  unfold Py.str.
  destruct (Z.to_int n) as [ d | d ]; cbn [NilZero.string_of_int].
  - apply Hu.
  - cbn [list_ascii_of_string]. constructor; [ reflexivity | apply Hu ].
Qed.

Lemma blank_no_comma (pad : string) :
  blank pad ->
  Forall (fun c => Ascii.eqb c "," = false) (list_ascii_of_string pad).
Proof.
  unfold blank. apply Forall_impl. intros c Hc.
  destruct (Ascii.eqb_spec c ","); [ subst c; discriminate | reflexivity ].
Qed.

(** The fields of a joined list: the first item as it is, every later
    item behind the padding of the separator. *)
Lemma split_join (pad : string) (items : list string) :
  Forall (fun c => Ascii.eqb c "," = false) (list_ascii_of_string pad) ->
  Forall (fun s => Forall (fun c => Ascii.eqb c "," = false)
                     (list_ascii_of_string s)) items ->
  forall (pre item : string),
    Forall (fun c => Ascii.eqb c "," = false)
      (list_ascii_of_string (pre ++ item)) ->
    Py.split "," (pre ++ Py.join (String "," pad) (item :: items))
    = ((pre ++ item)%string :: map (fun s => (pad ++ s)%string) items).
Proof.
  intros Hpad Hitems.
  induction Hitems as [ | next items Hnext _ IH ]; intros pre item Hitem.
  - cbn [Py.join concat map]. now apply split_solid.
  - change (Py.join (String "," pad) (item :: next :: items))
      with (item ++ String "," pad ++ Py.join (String "," pad) (next :: items))%string.
    rewrite <- string_app_assoc.
    change ((pre ++ item) ++ String "," pad
            ++ Py.join (String "," pad) (next :: items))%string
      with ((pre ++ item)
            ++ String "," (pad ++ Py.join (String "," pad) (next :: items)))%string.
    rewrite split_app, (split_solid _ Hitem), IH.
    + reflexivity.
    + rewrite list_ascii_of_string_app. now apply Forall_app.
Qed.

Lemma comprehension_map {A B C : Type} (f : B -> result C) (g : A -> B)
  (h : A -> C) (xs : list A) :
  (forall x, f (g x) = Ok (h x)) ->
  Py.comprehension f (map g xs) = Ok (map h xs).
Proof.
  intro H. induction xs as [ | x xs IH ]; [ reflexivity | ].
  cbn [map Py.comprehension]. now rewrite H, IH.
Qed.

(** X9. A list of ports written with [str] and joined with a comma,
    with or without white space after it, reads back as the same list
    as long as its entries stay plain: the list of open ports of the
    summary line is itself a port string for [-s]. *)
Theorem joined_ports_read_back (pad : string) (ports : list Z) :
  blank pad ->
  ports <> [] ->
  plain_entries (Py.join (String "," pad) (map Py.str ports)) = true ->
  parse_ports (Py.join (String "," pad) (map Py.str ports)) = Ok ports.
Proof.
  intros Hpad Hne _.
  destruct ports as [ | port ports ]; [ contradiction | ].
  unfold parse_ports. cbn [map].
  pose proof (split_join pad (map Py.str ports) (blank_no_comma pad Hpad))
    as Hsplit.
  specialize (Hsplit ltac:(apply Forall_map, Forall_forall;
                           intros n _; apply str_no_comma)
                     ""%string (Py.str port) (str_no_comma port)).
  cbn [append] in Hsplit. rewrite Hsplit.
  cbn [Py.comprehension].
  pose proof (int_str "" port ltac:(constructor)) as Hport.
  cbn [append] in Hport. rewrite Hport.
  rewrite map_map.
  rewrite (comprehension_map Py.int (fun n => (pad ++ Py.str n)%string)
             (fun n => n) ports (fun n => int_str pad n Hpad)).
  now rewrite map_id.
Qed.

(** The theorem on the list the summary line prints, "80, 443, 8080". *)
Lemma joined_ports_read_back_witness :
  blank " " /\
  [ 80; 443; 8080 ] <> [] /\
  plain_entries (Py.join ", " (map Py.str [ 80; 443; 8080 ])) = true /\
  parse_ports (Py.join ", " (map Py.str [ 80; 443; 8080 ]))
  = Ok [ 80; 443; 8080 ].
Proof.
  assert (H1 : blank " ") by (repeat constructor).
  assert (H2 : [ 80; 443; 8080 ] <> []) by discriminate.
  assert (H3 : plain_entries (Py.join ", " (map Py.str [ 80; 443; 8080 ]))
               = true) by reflexivity.
  split; [ exact H1 | split; [ exact H2 | split; [ exact H3 | ] ] ].
  exact (joined_ports_read_back " " [ 80; 443; 8080 ] H1 H2 H3).
Defined.

(** ** Port strings that are refused *)

Lemma int_raises (s : string) (e : exn) :
  Py.int s = Raise e -> e = ValueError s.
Proof.
  unfold Py.int.
  destruct (match Py.strip (list_ascii_of_string s) with
            | "+"%char :: r => (false, r)
            | "-"%char :: r => (true, r)
            | _ => (false, Py.strip (list_ascii_of_string s))
            end) as [ neg ds ].
  destruct (Py.int_body ds); [ discriminate | ].
  now intros [= <-].
Qed.

Lemma comprehension_int_raises (fields : list string) (e : exn) :
  Py.comprehension Py.int fields = Raise e ->
  exists field, In field fields /\ e = ValueError field.
Proof.
  induction fields as [ | f fields IH ]; [ discriminate | ].
  cbn [Py.comprehension].
  destruct (Py.int f) as [ n | e' ] eqn:Hf.
  - destruct (Py.comprehension Py.int fields) as [ ns | e' ];
      [ discriminate | ].
    intros [= <-]. destruct (IH eq_refl) as [ field [ Hin He ] ].
    exists field. split; [ now right | exact He ].
  - intros [= <-]. exists f. split; [ now left | ].
    now apply int_raises.
Qed.

Lemma comprehension_int_empty_field (fields : list string) :
  In ""%string fields -> exists e, Py.comprehension Py.int fields = Raise e.
Proof.
  induction fields as [ | f fields IH ]; [ intros [] | ].
  intros [ -> | Hin ]; cbn [Py.comprehension].
  - now eexists.
  - destruct (Py.int f); [ | now eexists ].
    destruct (IH Hin) as [ e He ]. rewrite He. now eexists.
Qed.

(** X14. A port string with an empty field is never accepted: the
    empty string, a leading comma, a trailing comma and two commas in a
    row each make the list comprehension raise. *)
Theorem empty_field_is_refused (a b : string) :
  (exists e, parse_ports "" = Raise e)
  /\ (exists e, parse_ports ("," ++ b) = Raise e)
  /\ (exists e, parse_ports (a ++ ",") = Raise e)
  /\ (exists e, parse_ports (a ++ ",," ++ b) = Raise e).
Proof.
  unfold parse_ports.
  repeat split; apply comprehension_int_empty_field.
  - now left.
  - cbn. now left.
  - change (a ++ ",")%string with (a ++ String "," "")%string.
    rewrite split_app. apply in_or_app. right. now left.
  - change (a ++ ",," ++ b)%string
      with (a ++ String "," (String "," b))%string.
    rewrite split_app. apply in_or_app. right. cbn. now left.
Qed.

(** ** More on the events of the loop *)

Lemma sockets_created_app (a b : list event) :
  sockets_created (a ++ b) = (sockets_created a + sockets_created b)%nat.
Proof. unfold sockets_created. now rewrite filter_app, length_app. Qed.

Lemma sockets_closed_app (a b : list event) :
  sockets_closed (a ++ b) = (sockets_closed a + sockets_closed b)%nat.
Proof. unfold sockets_closed. now rewrite filter_app, length_app. Qed.

Lemma sockets_created_blocks (ip : string) (prs : list (Z * Z)) :
  forall timeout,
    sockets_created (loop_blocks ip timeout prs) = List.length prs.
Proof.
  induction prs as [ | pr prs IH ]; intro timeout; [ reflexivity | ].
  cbn [loop_blocks]. rewrite sockets_created_app, IH. reflexivity.
Qed.

Lemma sockets_closed_blocks (ip : string) (prs : list (Z * Z)) :
  forall timeout,
    sockets_closed (loop_blocks ip timeout prs) = List.length prs.
Proof.
  induction prs as [ | pr prs IH ]; intro timeout; [ reflexivity | ].
  cbn [loop_blocks]. rewrite sockets_closed_app, IH. reflexivity.
Qed.

Lemma connect_targets_app (a b : list event) :
  connect_targets (a ++ b) = (connect_targets a ++ connect_targets b)%list.
Proof. apply flat_map_app. Qed.

Lemma connect_targets_blocks (ip : string) (prs : list (Z * Z)) :
  forall timeout,
    connect_targets (loop_blocks ip timeout prs)
    = repeat ip (List.length prs).
Proof.
  induction prs as [ | pr prs IH ]; intro timeout; [ reflexivity | ].
  cbn [loop_blocks]. rewrite connect_targets_app, IH. reflexivity.
Qed.

Section LoopStops.

Variable env : Env.

(** The loop stops at the first port [connect_ex] refuses: whole blocks
    for the ports before it, then the socket created for it. *)
Lemma scan_loop_overflow (ip : string) (good : list Z) (bad : Z)
  (rest : list Z) :
  forallb valid_port good = true ->
  valid_port bad = false ->
  forall (acc : list Z) (w : World),
  exists (prs : list (Z * Z)) (timeout : option Z),
    map fst prs = good /\
    scan_loop env ip (good ++ bad :: rest) acc w =
    (Raise OverflowError,
     mkWorld (Some 1)
       (trace w ++ loop_blocks ip (default_timeout w) prs
        ++ [ SocketNew timeout; SetDefaultTimeout 1 ])).
Proof.
  intros Hgood Hbad.
  induction good as [ | port good IH ]; intros acc w.
  - exists [], (default_timeout w). split; [ reflexivity | ].
    cbn [app]. rewrite scan_loop_cons, Hbad. reflexivity.
  - cbn [forallb] in Hgood. apply andb_prop in Hgood as [ Hport Hgood ].
    cbn [app]. rewrite scan_loop_cons, Hport. cbv zeta.
    set (errno := connect env _ ip port (default_timeout w)).
    destruct (IH Hgood (if errno =? 0 then acc ++ [port] else acc)%list
                (mkWorld (Some 1)
                   (trace w ++ probe_block ip (default_timeout w)
                                 (port, errno))))
      as (prs & timeout & Hprs & Hrun).
    exists ((port, errno) :: prs), timeout. split.
    + cbn [map fst]. now rewrite Hprs.
    + rewrite Hrun. cbn [default_timeout trace loop_blocks].
      now rewrite <- !app_assoc.
Qed.

End LoopStops.

(** ** More on the scan *)

Section ScanMore.

Variable env : Env.

(** The world a scan that runs to its end leaves: the default timeout
    is 1. *)
Lemma scan_ports_ok_default (host ports ip : string) (port_list : list Z)
  (w : World) :
  gethostbyname env (trace w) host = Ok ip ->
  ip <> "" ->
  parse_ports ports = Ok port_list ->
  forallb valid_port port_list = true ->
  default_timeout (snd (scan_ports env host ports w)) = Some 1.
Proof.
  intros Hres Hip Hparse Hvalid.
  pose proof (parse_ports_nonempty ports port_list Hparse) as Hne.
  apply String.eqb_neq in Hip.
  rewrite scan_ports_eq. cbv zeta.
  rewrite Hres, Hip, Hparse.
  match goal with
  | |- context [ scan_loop env ip port_list [] ?w1 ] =>
      destruct (scan_loop_ok env ip port_list Hvalid [] w1)
        as [ prs [ Hprs Hrun ] ];
      rewrite Hrun
  end.
  destruct port_list; [ contradiction | reflexivity ].
Qed.

(** A scan whose host resolved, up to the point where the loop ends. *)
Lemma scan_ports_resolved (host ports ip : string) (w : World) :
  gethostbyname env (trace w) host = Ok ip ->
  exists (pre : list event) (prs : list (Z * Z)) (post : list event),
    trace (snd (scan_ports env host ports w))
    = (trace w ++ pre ++ loop_blocks ip (default_timeout w) prs ++ post)%list
    /\ quiet pre
    /\ (quiet post \/ exists t, post = [ SocketNew t; SetDefaultTimeout 1 ]).
Proof.
  intro Hres.
  rewrite scan_ports_eq. cbv zeta. rewrite Hres.
  destruct (String.eqb ip "").
  - eexists [ _; _ ], [], []. cbn [snd trace loop_blocks app].
    split; [ reflexivity | split; [ reflexivity | now left ] ].
  - destruct (parse_ports ports) as [ port_list | e ].
    + match goal with
      | |- context [ scan_loop env ip port_list [] ?w1 ] =>
          destruct (scan_loop_any env ip port_list [] w1)
            as (prs & tail & Htrace & _ & Htail);
          destruct (scan_loop env ip port_list [] w1)
            as [ [ open_ports | e ] w2 ]
      end;
        cbn [fst snd trace default_timeout] in Htrace, Htail |- *;
        rewrite Htrace.
      * subst tail.
        exists [ Gethostbyname host (Ok ip);
                 Stdout (msg_start host ip ++ nl);
                 Now (now env (trace w ++
                               [ Gethostbyname host (Ok ip);
                                 Stdout (msg_start host ip ++ nl) ])) ],
               prs.
        eexists.
        rewrite <- !app_assoc. cbn [app].
        split; [ reflexivity | split; [ reflexivity | now left ] ].
      * destruct Htail as [ t -> ].
        exists [ Gethostbyname host (Ok ip);
                 Stdout (msg_start host ip ++ nl);
                 Now (now env (trace w ++
                               [ Gethostbyname host (Ok ip);
                                 Stdout (msg_start host ip ++ nl) ])) ],
               prs.
        eexists.
        rewrite <- !app_assoc. cbn [app].
        split; [ reflexivity | split; [ reflexivity | ] ].
        right. now exists t.
    + eexists [ _; _; _ ], [], []. cbn [snd trace loop_blocks app].
      rewrite <- ?app_assoc.
      split; [ reflexivity | split; [ reflexivity | now left ] ].
Qed.

End ScanMore.

Lemma connect_targets_quiet (seg : list event) :
  quiet seg -> connect_targets seg = [].
Proof.
  unfold quiet. induction seg as [ | e seg IH ]; [ reflexivity | ].
  cbn [forallb]. intros H. apply andb_prop in H as [ He Hseg ].
  destruct e; try discriminate; cbn; auto.
Qed.

Lemma outstanding_quiet (seg : list event) : quiet seg -> outstanding seg = 0.
Proof.
  unfold quiet. induction seg as [ | e seg IH ]; [ reflexivity | ].
  cbn [forallb]. intros H. apply andb_prop in H as [ He Hseg ].
  change (outstanding (e :: seg)) with (delta e + outstanding seg).
  rewrite (IH Hseg). destruct e; try discriminate; reflexivity.
Qed.

(** X8. Every connect attempt of a scan goes to the address the scan's
    own call of the resolver returned, whatever an earlier resolution of
    the same name had answered. *)
Theorem scan_connects_to_its_own_resolution
  (env : Env) (host ports ip : string) (w : World) :
  gethostbyname env (trace w) host = Ok ip ->
  exists seg : list event,
    trace (snd (scan_ports env host ports w)) = (trace w ++ seg)%list /\
    connect_targets seg = repeat ip (List.length (connects seg)).
Proof.
  intro Hres.
  destruct (scan_ports_resolved env host ports ip w Hres)
    as (pre & prs & post & Htrace & Hpre & Hpost).
  eexists. split; [ exact Htrace | ].
  rewrite !connect_targets_app, !connects_app.
  rewrite connect_targets_blocks, connects_blocks.
  rewrite (connect_targets_quiet pre Hpre), (connects_quiet pre Hpre).
  destruct Hpost as [ Hquiet | [ t -> ] ].
  - rewrite (connect_targets_quiet post Hquiet), (connects_quiet post Hquiet).
    cbn [app]. now rewrite !app_nil_r.
  - cbn. now rewrite !app_nil_r.
Qed.

(** The theorem where the resolver answers differently from call to
    call: after a first resolution that gave 192.0.2.7, the scan
    connects to the 192.0.2.8 it is told itself. *)
Lemma scan_connects_to_its_own_resolution_witness :
  gethostbyname MoreExamples.round_robin
    (trace (mkWorld None [ Gethostbyname "example.org" (Ok "192.0.2.7") ]))
    "example.org" = Ok "192.0.2.8" /\
  exists seg : list event,
    trace (snd (scan_ports MoreExamples.round_robin "example.org" "80,443"
                  (mkWorld None
                     [ Gethostbyname "example.org" (Ok "192.0.2.7") ])))
    = (trace (mkWorld None [ Gethostbyname "example.org" (Ok "192.0.2.7") ])
       ++ seg)%list /\
    connect_targets seg = repeat "192.0.2.8" (List.length (connects seg)).
Proof.
  split; [ reflexivity | ].
  exact (scan_connects_to_its_own_resolution MoreExamples.round_robin
           "example.org" "80,443" "192.0.2.8"
           (mkWorld None [ Gethostbyname "example.org" (Ok "192.0.2.7") ])
           eq_refl).
Defined.

(** X4. A malformed entry anywhere in a port string of plain entries
    stops the scan before any probe: the string is read as a whole
    before the loop, so once the host has resolved the scan raises the
    [ValueError] of the offending field without having created a socket,
    not even for the well-formed entries in front of it, and the default
    timeout is left as it was. *)
Theorem malformed_entry_stops_the_scan_before_any_probe
  (env : Env) (host ports ip : string) (e : exn) (w : World) :
  gethostbyname env (trace w) host = Ok ip ->
  ip <> "" ->
  plain_entries ports = true ->
  parse_ports ports = Raise e ->
  fst (scan_ports env host ports w) = Raise e
  /\ (exists field, In field (Py.split "," ports) /\ e = ValueError field)
  /\ (exists seg : list event,
        trace (snd (scan_ports env host ports w)) = (trace w ++ seg)%list
        /\ forallb passive seg = true)
  /\ default_timeout (snd (scan_ports env host ports w)) = default_timeout w.
Proof.
  intros Hres Hip _ Hparse.
  apply String.eqb_neq in Hip.
  rewrite scan_ports_eq. cbv zeta. rewrite Hres, Hip, Hparse.
  cbn [fst snd trace default_timeout].
  split; [ reflexivity | split; [ | split; [ | reflexivity ] ] ].
  - now apply comprehension_int_raises.
  - eexists. split; [ reflexivity | reflexivity ].
Qed.

(** The theorem on "80,http" in the lab: port 80 is not probed. *)
Lemma malformed_entry_stops_the_scan_before_any_probe_witness :
  gethostbyname Examples.lab (trace fresh) "example.org" = Ok "192.0.2.7" /\
  "192.0.2.7" <> "" /\
  plain_entries "80,http" = true /\
  parse_ports "80,http" = Raise (ValueError "http") /\
  fst (scan_ports Examples.lab "example.org" "80,http" fresh)
  = Raise (ValueError "http").
Proof.
  assert (H1 : gethostbyname Examples.lab (trace fresh) "example.org"
               = Ok "192.0.2.7") by reflexivity.
  assert (H2 : "192.0.2.7" <> "") by discriminate.
  assert (Hp : plain_entries "80,http" = true) by reflexivity.
  assert (H3 : parse_ports "80,http" = Raise (ValueError "http"))
    by reflexivity.
  repeat (split; [ assumption | ]).
  exact (proj1 (malformed_entry_stops_the_scan_before_any_probe Examples.lab
                  "example.org" "80,http" "192.0.2.7" (ValueError "http")
                  fresh H1 H2 Hp H3)).
Defined.

(** X5. In a port string of plain entries, a port outside 0..65535
    ends the scan where it stands in the list: the ports in front of it
    are probed and reported in order,
    then [connect_ex] raises [OverflowError]; the ports behind it are
    never probed, neither the duration nor the summary is printed, and
    the socket created for the refused port stays open. *)
Theorem out_of_range_port_ends_the_scan_midway
  (env : Env) (host ports ip : string) (good : list Z) (bad : Z)
  (rest : list Z) (w : World) :
  gethostbyname env (trace w) host = Ok ip ->
  ip <> "" ->
  plain_entries ports = true ->
  parse_ports ports = Ok (good ++ bad :: rest)%list ->
  forallb valid_port good = true ->
  valid_port bad = false ->
  fst (scan_ports env host ports w) = Raise OverflowError
  /\ exists seg : list event,
       trace (snd (scan_ports env host ports w)) = (trace w ++ seg)%list
       /\ probed_ports seg = good
       /\ stdout seg
          = ((msg_start host ip ++ nl)%string
             :: map status_line (connects seg))
       /\ outstanding seg = 1.
Proof.
  intros Hres Hip _ Hparse Hgood Hbad.
  apply String.eqb_neq in Hip.
  rewrite scan_ports_eq. cbv zeta. rewrite Hres, Hip, Hparse.
  match goal with
  | |- context [ scan_loop env ip (good ++ bad :: rest)%list [] ?w1 ] =>
      destruct (scan_loop_overflow env ip good bad rest Hgood Hbad [] w1)
        as (prs & timeout & Hprs & Hrun);
      rewrite Hrun
  end.
  cbn [fst snd trace default_timeout].
  split; [ reflexivity | ].
  eexists. split; [ rewrite <- !app_assoc; reflexivity | ].
  unfold probed_ports.
  rewrite !connects_app, !stdout_app, !outstanding_app.
  rewrite connects_blocks, stdout_blocks, outstanding_blocks.
  cbn. rewrite !app_nil_r. auto.
Qed.

(** The theorem on "80,70000,443" in the lab. *)
Lemma out_of_range_port_ends_the_scan_midway_witness :
  gethostbyname Examples.lab (trace fresh) "example.org" = Ok "192.0.2.7" /\
  "192.0.2.7" <> "" /\
  plain_entries "80,70000,443" = true /\
  parse_ports "80,70000,443" = Ok ([ 80 ] ++ 70000 :: [ 443 ])%list /\
  forallb valid_port [ 80 ] = true /\
  valid_port 70000 = false /\
  fst (scan_ports Examples.lab "example.org" "80,70000,443" fresh)
  = Raise OverflowError.
Proof.
  assert (H1 : gethostbyname Examples.lab (trace fresh) "example.org"
               = Ok "192.0.2.7") by reflexivity.
  assert (H2 : "192.0.2.7" <> "") by discriminate.
  assert (Hp : plain_entries "80,70000,443" = true) by reflexivity.
  assert (H3 : parse_ports "80,70000,443"
               = Ok ([ 80 ] ++ 70000 :: [ 443 ])%list) by reflexivity.
  assert (H4 : forallb valid_port [ 80 ] = true) by reflexivity.
  assert (H5 : valid_port 70000 = false) by reflexivity.
  repeat (split; [ assumption | ]).
  exact (proj1 (out_of_range_port_ends_the_scan_midway Examples.lab
                  "example.org" "80,70000,443" "192.0.2.7" [ 80 ] 70000
                  [ 443 ] fresh H1 H2 Hp H3 H4 H5)).
Defined.

Lemma sockets_of_scan_events (env : Env) (host ip : string)
  (timeout : option Z) (prs : list (Z * Z)) (t1 t2 : Z) :
  sockets_created (scan_events env host ip timeout prs t1 t2)
  = List.length prs
  /\ sockets_closed (scan_events env host ip timeout prs t1 t2)
     = List.length prs
  /\ outstanding (scan_events env host ip timeout prs t1 t2) = 0.
Proof.
  unfold scan_events.
  rewrite !sockets_created_app, !sockets_closed_app, !outstanding_app.
  rewrite sockets_created_blocks, sockets_closed_blocks, outstanding_blocks.
  cbn. repeat split; lia.
Qed.

(** X6. A scan that runs to its end closes every socket it created: on
    a port string of plain entries that are all valid ports it creates
    one socket per entry of the list, closes as many, and holds none
    when it returns. *)
Theorem completed_scan_closes_its_sockets
  (env : Env) (host ports ip : string) (port_list : list Z) (w : World) :
  gethostbyname env (trace w) host = Ok ip ->
  ip <> "" ->
  plain_entries ports = true ->
  parse_ports ports = Ok port_list ->
  forallb valid_port port_list = true ->
  exists seg : list event,
    trace (snd (scan_ports env host ports w)) = (trace w ++ seg)%list /\
    sockets_created seg = List.length port_list /\
    sockets_closed seg = List.length port_list /\
    outstanding seg = 0.
Proof.
  intros Hres Hip _ Hparse Hvalid.
  destruct (scan_ports_ok env host ports ip port_list w Hres Hip Hparse Hvalid)
    as (prs & t1 & t2 & Hprs & _ & Htrace).
  eexists. split; [ exact Htrace | ].
  rewrite <- Hprs, length_map.
  apply sockets_of_scan_events.
Qed.

(** The theorem on the scan of "80,443,80" in the lab. *)
Lemma completed_scan_closes_its_sockets_witness :
  gethostbyname Examples.lab (trace fresh) "example.org" = Ok "192.0.2.7" /\
  "192.0.2.7" <> "" /\
  plain_entries "80,443,80" = true /\
  parse_ports "80,443,80" = Ok [ 80; 443; 80 ] /\
  forallb valid_port [ 80; 443; 80 ] = true /\
  exists seg : list event,
    trace (snd (scan_ports Examples.lab "example.org" "80,443,80" fresh))
    = (trace fresh ++ seg)%list /\
    sockets_created seg = List.length [ 80; 443; 80 ] /\
    sockets_closed seg = List.length [ 80; 443; 80 ] /\
    outstanding seg = 0.
Proof.
  assert (H1 : gethostbyname Examples.lab (trace fresh) "example.org"
               = Ok "192.0.2.7") by reflexivity.
  assert (H2 : "192.0.2.7" <> "") by discriminate.
  assert (Hp : plain_entries "80,443,80" = true) by reflexivity.
  assert (H3 : parse_ports "80,443,80" = Ok [ 80; 443; 80 ]) by reflexivity.
  assert (H4 : forallb valid_port [ 80; 443; 80 ] = true) by reflexivity.
  repeat (split; [ assumption | ]).
  exact (completed_scan_closes_its_sockets Examples.lab "example.org"
           "80,443,80" "192.0.2.7" [ 80; 443; 80 ] fresh H1 H2 Hp H3 H4).
Defined.

(** X7. A scan changes the process for good: whatever the default
    timeout was, a scan that runs to its end leaves it at one second,
    so that in a scan that follows in the same process every attempt,
    the first included, runs under one second.  Both port strings are
    of plain entries that are all valid ports. *)
Theorem scan_leaves_the_default_timeout_at_one
  (env : Env) (host ports ip host' ports' ip' : string)
  (port_list port_list' : list Z) (w : World) :
  gethostbyname env (trace w) host = Ok ip ->
  ip <> "" ->
  plain_entries ports = true ->
  parse_ports ports = Ok port_list ->
  forallb valid_port port_list = true ->
  gethostbyname env (trace (snd (scan_ports env host ports w))) host'
  = Ok ip' ->
  ip' <> "" ->
  plain_entries ports' = true ->
  parse_ports ports' = Ok port_list' ->
  forallb valid_port port_list' = true ->
  default_timeout (snd (scan_ports env host ports w)) = Some 1
  /\ exists seg : list event,
       trace (snd (scan_ports env host' ports'
                     (snd (scan_ports env host ports w))))
       = (trace (snd (scan_ports env host ports w)) ++ seg)%list
       /\ connect_timeouts seg
          = repeat (Some 1) (List.length port_list').
Proof.
  intros Hres Hip _ Hparse Hvalid Hres' Hip' _ Hparse' Hvalid'.
  pose proof (scan_ports_ok_default env host ports ip port_list w
                Hres Hip Hparse Hvalid) as Hdefault.
  split; [ exact Hdefault | ].
  destruct (scan_ports_ok env host' ports' ip' port_list'
              (snd (scan_ports env host ports w)) Hres' Hip' Hparse' Hvalid')
    as (prs & t1 & t2 & Hprs & _ & Htrace).
  eexists. split; [ exact Htrace | ].
  rewrite connect_timeouts_scan_events, Hdefault, <- Hprs, length_map.
  destruct prs; reflexivity.
Qed.

(** The theorem on two scans of the silent port 81 in the lab. *)
Lemma scan_leaves_the_default_timeout_at_one_witness :
  gethostbyname Examples.lab (trace fresh) "example.org" = Ok "192.0.2.7" /\
  "192.0.2.7" <> "" /\
  plain_entries "81" = true /\
  parse_ports "81" = Ok [ 81 ] /\
  forallb valid_port [ 81 ] = true /\
  gethostbyname Examples.lab
    (trace (snd (scan_ports Examples.lab "example.org" "81" fresh)))
    "example.org" = Ok "192.0.2.7" /\
  plain_entries "81,81" = true /\
  parse_ports "81,81" = Ok [ 81; 81 ] /\
  forallb valid_port [ 81; 81 ] = true /\
  default_timeout (snd (scan_ports Examples.lab "example.org" "81" fresh))
  = Some 1 /\
  exists seg : list event,
    trace (snd (scan_ports Examples.lab "example.org" "81,81"
                  (snd (scan_ports Examples.lab "example.org" "81" fresh))))
    = (trace (snd (scan_ports Examples.lab "example.org" "81" fresh))
       ++ seg)%list
    /\ connect_timeouts seg = repeat (Some 1) (List.length [ 81; 81 ]).
Proof.
  assert (H1 : gethostbyname Examples.lab (trace fresh) "example.org"
               = Ok "192.0.2.7") by reflexivity.
  assert (H2 : "192.0.2.7" <> "") by discriminate.
  assert (H3 : parse_ports "81" = Ok [ 81 ]) by reflexivity.
  assert (H4 : forallb valid_port [ 81 ] = true) by reflexivity.
  assert (H5 : gethostbyname Examples.lab
                 (trace (snd (scan_ports Examples.lab "example.org" "81"
                                fresh)))
                 "example.org" = Ok "192.0.2.7") by reflexivity.
  assert (H6 : parse_ports "81,81" = Ok [ 81; 81 ]) by reflexivity.
  assert (H7 : forallb valid_port [ 81; 81 ] = true) by reflexivity.
  assert (Hp : plain_entries "81" = true) by reflexivity.
  assert (Hp' : plain_entries "81,81" = true) by reflexivity.
  repeat (split; [ assumption | ]).
  exact (scan_leaves_the_default_timeout_at_one Examples.lab
           "example.org" "81" "192.0.2.7" "example.org" "81,81" "192.0.2.7"
           [ 81 ] [ 81; 81 ] fresh H1 H2 Hp H3 H4 H5 H2 Hp' H6 H7).
Defined.

(** ** The resolver, ping and traceroute *)

Section Wrappers.

Variable env : Env.

(** [resolve_host] with its binds carried out. *)
Lemma resolve_host_eq (hostname : string) (w : World) :
  resolve_host env hostname w
  = (match gethostbyname env (trace w) hostname with
     | Ok ip => Ok (Some ip)
     | Raise gaierror => Ok None
     | Raise e => Raise e
     end,
     mkWorld (default_timeout w)
       (trace w ++ [ Gethostbyname hostname
                       (gethostbyname env (trace w) hostname) ])).
Proof.
  unfold resolve_host, try_except, socket_gethostbyname, bind, ret.
  destruct (gethostbyname env (trace w) hostname) as [ ip | e ];
    [ reflexivity | now destruct e ].
Qed.

(** [ping_host] with its binds carried out. *)
Lemma ping_host_eq (host : string) (w : World) :
  ping_host env host w
  = let pinging := Stdout (msg_pinging host ++ nl) in
    let r := check_output env (trace w ++ [ pinging ])
               (ping_command env host) in
    let called := [ pinging; CheckOutput (ping_command env host) r ] in
    match r with
    | Ok output =>
        (Ok tt,
         mkWorld (default_timeout w)
           (trace w ++ called
            ++ [ Stdout (msg_reachable ++ nl); Stdout (output ++ nl) ]))
    | Raise CalledProcessError =>
        (Ok tt,
         mkWorld (default_timeout w)
           (trace w ++ called ++ [ Stdout (msg_unreachable ++ nl) ]))
    | Raise FileNotFoundError =>
        (Ok tt,
         mkWorld (default_timeout w)
           (trace w ++ called ++ [ Stdout (msg_ping_missing ++ nl) ]))
    | Raise e => (Raise e, mkWorld (default_timeout w) (trace w ++ called))
    end.
Proof.
  unfold ping_host, try_except, subprocess_check_output, print, emit, bind,
    ping_command.
  cbv zeta. cbn [trace default_timeout].
  destruct (check_output env _ _) as [ output | e ].
  - cbn [trace default_timeout]. now rewrite <- !app_assoc.
  - destruct e; cbn [trace default_timeout]; now rewrite <- !app_assoc.
Qed.

Lemma write_lines_eq (lines : list string) (w : World) :
  write_lines lines w
  = (Ok tt, mkWorld (default_timeout w) (trace w ++ map Stdout lines)).
Proof.
  revert w. induction lines as [ | line lines IH ]; intro w.
  - cbn. rewrite app_nil_r. now destruct w.
  - cbn [write_lines map]. unfold bind, write, emit. rewrite IH.
    cbn [trace default_timeout]. now rewrite <- app_assoc.
Qed.

(** [traceroute] with its binds carried out. *)
Lemma traceroute_eq (host : string) (w : World) :
  traceroute env host w
  = let r := gethostbyname env (trace w) host in
    let resolved := [ Gethostbyname host r ] in
    let aborted :=
      (Ok tt,
       mkWorld (default_timeout w)
         (trace w ++ resolved
          ++ [ Stdout (msg_abort_traceroute host ++ nl) ])) in
    match r with
    | Raise gaierror => aborted
    | Raise e => (Raise e, mkWorld (default_timeout w) (trace w ++ resolved))
    | Ok ip =>
        if String.eqb ip "" then aborted
        else
          let started :=
            (resolved ++ [ Stdout (msg_tracing host ip ++ nl) ])%list in
          let p := popen env (trace w ++ started)
                     (traceroute_command env host) in
          let spawned_ :=
            (started ++ [ Popen (traceroute_command env host) p ])%list in
          match p with
          | Ok lines =>
              (Ok tt,
               mkWorld (default_timeout w)
                 (trace w ++ spawned_ ++ map Stdout lines))
          | Raise FileNotFoundError =>
              (Ok tt,
               mkWorld (default_timeout w)
                 (trace w ++ spawned_
                  ++ [ Stdout
                         ((Colors.RED ++ "[-] '"
                           ++ hd "" (traceroute_command env host)
                           ++ "' command not found. Please ensure it is installed and in your system's PATH."
                           ++ Colors.ENDC) ++ nl) ]))
          | Raise e =>
              (Raise e, mkWorld (default_timeout w) (trace w ++ spawned_))
          end
    end.
Proof.
  unfold traceroute. unfold bind at 1. rewrite resolve_host_eq.
  cbv zeta.
  destruct (gethostbyname env (trace w) host) as [ ip | e ].
  - cbn [truthy value negb].
    destruct (String.eqb ip ""); cbn [negb].
    + unfold print, emit. cbn [trace default_timeout].
      now rewrite <- !app_assoc.
    + unfold bind at 1. unfold print at 1, emit at 1.
      cbn [trace default_timeout].
      unfold try_except, subprocess_Popen, bind, traceroute_command.
      cbn [trace default_timeout hd]. rewrite <- !app_assoc. cbn [app].
      destruct (popen env _ _) as [ lines | e ].
      * rewrite write_lines_eq. cbn [trace default_timeout].
        now rewrite <- !app_assoc.
      * destruct e; try reflexivity.
        unfold print, emit. cbn [trace default_timeout].
        now rewrite <- !app_assoc.
  - destruct e; try reflexivity.
    cbn [truthy negb]. unfold print, emit. cbn [trace default_timeout].
    now rewrite <- !app_assoc.
Qed.

End Wrappers.

Lemma spawned_app (a b : list event) :
  spawned (a ++ b) = (spawned a ++ spawned b)%list.
Proof. apply flat_map_app. Qed.

Lemma resolutions_app (a b : list event) :
  resolutions (a ++ b) = (resolutions a ++ resolutions b)%list.
Proof. apply flat_map_app. Qed.

Lemma stdout_map_Stdout (lines : list string) :
  stdout (map Stdout lines) = lines.
Proof.
  induction lines as [ | l lines IH ]; [ reflexivity | ].
  cbn [map]. change (stdout (Stdout l :: map Stdout lines))
    with (l :: stdout (map Stdout lines)). now rewrite IH.
Qed.

Lemma spawned_map_Stdout (lines : list string) :
  spawned (map Stdout lines) = [].
Proof. induction lines as [ | l lines IH ]; [ reflexivity | exact IH ]. Qed.

(** X1. [resolve_host] hides the failed lookup and nothing else: it
    returns the address when the resolver answers, [None] exactly when
    the resolver raises [gaierror], lets every other exception through,
    and in every case calls the resolver once and prints nothing. *)
Theorem resolve_host_hides_only_the_failed_lookup
  (env : Env) (hostname : string) (w : World) :
  (forall ip,
     fst (resolve_host env hostname w) = Ok (Some ip)
     <-> gethostbyname env (trace w) hostname = Ok ip)
  /\ (fst (resolve_host env hostname w) = Ok None
      <-> gethostbyname env (trace w) hostname = Raise gaierror)
  /\ (forall e,
        fst (resolve_host env hostname w) = Raise e
        <-> gethostbyname env (trace w) hostname = Raise e /\ e <> gaierror)
  /\ resolutions (trace (snd (resolve_host env hostname w)))
     = (resolutions (trace w) ++ [ hostname ])%list
  /\ stdout (trace (snd (resolve_host env hostname w))) = stdout (trace w).
Proof.
  rewrite resolve_host_eq. cbn [fst snd trace].
  rewrite resolutions_app, stdout_app.
  split; [ | split; [ | split; [ | split ] ] ];
    [ | | | reflexivity | apply app_nil_r ].
  - intro ip'.
    destruct (gethostbyname env (trace w) hostname) as [ ip | [] ];
      split; congruence.
  - destruct (gethostbyname env (trace w) hostname) as [ ip | [] ];
      split; congruence.
  - intro e'.
    destruct (gethostbyname env (trace w) hostname) as [ ip | [] ];
      (split;
       [ intro H; inversion H; subst; split; congruence
       | intros [ H Hne ]; congruence ]).
Qed.

(** X2. [ping_host] starts exactly one process, the platform's ping
    with a count of one on the host it was given; it prints the
    reachable line exactly when that process ends with status 0, and it
    returns normally unless starting the process raised something other
    than [CalledProcessError] or [FileNotFoundError], which it lets
    through. *)
Theorem ping_host_outcome (env : Env) (host : string) (w : World) :
  spawned (trace (snd (ping_host env host w)))
  = (spawned (trace w) ++ [ ping_command env host ])%list
  /\ (exists lines : list string,
        stdout (trace (snd (ping_host env host w)))
        = (stdout (trace w) ++ lines)%list
        /\ (In (msg_reachable ++ nl)%string lines
            <-> exists output,
                  check_output env
                    (trace w ++ [ Stdout (msg_pinging host ++ nl) ])
                    (ping_command env host) = Ok output))
  /\ (forall e,
        fst (ping_host env host w) = Raise e
        <-> check_output env
              (trace w ++ [ Stdout (msg_pinging host ++ nl) ])
              (ping_command env host) = Raise e
            /\ e <> CalledProcessError /\ e <> FileNotFoundError).
Proof.
  rewrite ping_host_eq. cbv zeta.
  set (answer := check_output env _ (ping_command env host)).
  assert (Hlines : forall tail : list event,
            spawned tail = [] ->
            spawned (trace w
                     ++ [ Stdout (msg_pinging host ++ nl);
                          CheckOutput (ping_command env host) answer ]
                     ++ tail)
            = (spawned (trace w) ++ [ ping_command env host ])%list).
  { intros tail Htail. rewrite !spawned_app, Htail. reflexivity. }
  split; [ | split ].
  - destruct answer as [ output | [] ]; cbn [snd trace];
      try (apply Hlines; reflexivity);
      rewrite <- (app_nil_r [ _; CheckOutput _ _ ]); apply Hlines;
      reflexivity.
  - destruct answer as [ output | [] ]; cbn [snd trace];
      rewrite ?stdout_app;
      (eexists; split; [ reflexivity | ]);
      (split;
       [ try (intros _; now eexists);
         cbn; intros H;
         repeat (destruct H as [ H | H ]; [ discriminate | ]);
         destruct H
       | try (intros [ output' H ]; discriminate);
         intros _; cbn; auto ]).
  - intro e.
    destruct answer as [ output | [] ]; cbn [fst];
      (split;
       [ intro H; inversion H; subst; repeat split; congruence
       | intros ( H & H1 & H2 ); congruence ]).
Qed.

(** X3. When the host resolves and the tool starts, [traceroute] hands
    the host name (not the address) to the platform's tool and writes
    the tool's output to standard output line by line, unchanged and in
    order, after its heading; whatever the tool printed, it returns
    normally. *)
Theorem traceroute_echoes_the_tool
  (env : Env) (host ip : string) (lines : list string) (w : World) :
  gethostbyname env (trace w) host = Ok ip ->
  ip <> "" ->
  popen env
    (trace w ++ [ Gethostbyname host (Ok ip);
                  Stdout (msg_tracing host ip ++ nl) ])
    (traceroute_command env host) = Ok lines ->
  fst (traceroute env host w) = Ok tt
  /\ stdout (trace (snd (traceroute env host w)))
     = (stdout (trace w) ++ (msg_tracing host ip ++ nl)%string :: lines)%list
  /\ spawned (trace (snd (traceroute env host w)))
     = (spawned (trace w) ++ [ traceroute_command env host ])%list.
Proof.
  intros Hres Hip Hpopen.
  apply String.eqb_neq in Hip.
  rewrite traceroute_eq. cbv zeta. rewrite Hres, Hip.
  cbn [app]. rewrite Hpopen.
  cbn [fst snd trace].
  rewrite !stdout_app, !spawned_app.
  match goal with
  | |- context [ stdout (?a :: ?b :: ?c :: map Stdout lines) ] =>
      change (stdout (a :: b :: c :: map Stdout lines))
        with (stdout [ a; b; c ] ++ stdout (map Stdout lines))%list;
      change (spawned (a :: b :: c :: map Stdout lines))
        with (spawned [ a; b; c ] ++ spawned (map Stdout lines))%list
  end.
  rewrite stdout_map_Stdout, spawned_map_Stdout.
  repeat split.
Qed.

(** The theorem on Windows, where the tool is tracert. *)
Lemma traceroute_echoes_the_tool_witness :
  gethostbyname MoreExamples.windows (trace fresh) "example.org"
  = Ok "192.0.2.7" /\
  "192.0.2.7" <> "" /\
  popen MoreExamples.windows
    (trace fresh ++ [ Gethostbyname "example.org" (Ok "192.0.2.7");
                      Stdout (msg_tracing "example.org" "192.0.2.7" ++ nl) ])
    (traceroute_command MoreExamples.windows "example.org")
  = Ok [ "Tracing route to example.org" ++ nl; "  1  192.0.2.7" ++ nl ]%string /\
  spawned (trace (snd (traceroute MoreExamples.windows "example.org" fresh)))
  = (spawned (trace fresh) ++ [ [ "tracert"; "example.org" ] ])%list.
Proof.
  assert (H1 : gethostbyname MoreExamples.windows (trace fresh) "example.org"
               = Ok "192.0.2.7") by reflexivity.
  assert (H2 : "192.0.2.7" <> "") by discriminate.
  assert (H3 : popen MoreExamples.windows
                 (trace fresh
                  ++ [ Gethostbyname "example.org" (Ok "192.0.2.7");
                       Stdout (msg_tracing "example.org" "192.0.2.7" ++ nl) ])
                 (traceroute_command MoreExamples.windows "example.org")
               = Ok [ "Tracing route to example.org" ++ nl;
                      "  1  192.0.2.7" ++ nl ]%string) by reflexivity.
  repeat (split; [ assumption | ]).
  exact (proj2 (proj2 (traceroute_echoes_the_tool MoreExamples.windows
                         "example.org" "192.0.2.7" _ fresh H1 H2 H3))).
Defined.

(** X10. Without an address [traceroute] starts nothing: when the
    lookup fails it prints its abort line and returns normally, and no
    process has been started; and a missing tool is reported, not
    raised. *)
Theorem traceroute_gives_up_quietly
  (env : Env) (host : string) (w : World) :
  (gethostbyname env (trace w) host = Raise gaierror ->
   traceroute env host w
   = (Ok tt,
      mkWorld (default_timeout w)
        (trace w ++ [ Gethostbyname host (Raise gaierror);
                      Stdout (msg_abort_traceroute host ++ nl) ])))
  /\ (forall ip,
        gethostbyname env (trace w) host = Ok ip ->
        ip <> "" ->
        popen env
          (trace w ++ [ Gethostbyname host (Ok ip);
                        Stdout (msg_tracing host ip ++ nl) ])
          (traceroute_command env host) = Raise FileNotFoundError ->
        fst (traceroute env host w) = Ok tt
        /\ stdout (trace (snd (traceroute env host w)))
           = (stdout (trace w)
              ++ [ (msg_tracing host ip ++ nl)%string;
                   (msg_tool_missing env ++ nl)%string ])%list).
Proof.
  split.
  - intro Hres. rewrite traceroute_eq. cbv zeta. now rewrite Hres.
  - intros ip Hres Hip Hpopen.
    apply String.eqb_neq in Hip.
    rewrite traceroute_eq. cbv zeta. rewrite Hres, Hip.
    cbn [app]. rewrite Hpopen. cbn [fst snd trace].
    rewrite !stdout_app. split; reflexivity.
Qed.

(** The theorem for a name that does not resolve. *)
Lemma traceroute_gives_up_quietly_witness :
  gethostbyname Examples.offline (trace fresh) "nowhere.invalid"
  = Raise gaierror /\
  traceroute Examples.offline "nowhere.invalid" fresh
  = (Ok tt,
     mkWorld None
       [ Gethostbyname "nowhere.invalid" (Raise gaierror);
         Stdout (msg_abort_traceroute "nowhere.invalid" ++ nl) ]).
Proof.
  assert (H : gethostbyname Examples.offline (trace fresh) "nowhere.invalid"
              = Raise gaierror) by reflexivity.
  split; [ exact H | ].
  exact (proj1 (traceroute_gives_up_quietly Examples.offline
                  "nowhere.invalid" fresh) H).
Defined.

(** ** The order of the steps *)

Lemma emits_seq {A B : Type} (P1 P2 Q : list event -> Prop)
  (m : M A) (k : A -> M B) :
  emits P1 m ->
  (forall a, emits P2 (k a)) ->
  P2 [] ->
  (forall s1 s2, P1 s1 -> P2 s2 -> Q (s1 ++ s2)%list) ->
  emits Q (bind m k).
Proof.
  intros Hm Hk Hnil HQ w. unfold bind.
  destruct (Hm w) as [ s1 [ H1 P1s ] ].
  destruct (m w) as [ [ a | e ] w1 ]; cbn [snd] in H1.
  - destruct (Hk a w1) as [ s2 [ H2 P2s ] ].
    exists (s1 ++ s2)%list. rewrite H2, H1, app_assoc. auto.
  - exists s1. split; [ exact H1 | ].
    rewrite <- (app_nil_r s1). auto.
Qed.


Lemma emits_optional (P : list event -> Prop) (b : bool) (m : M unit) :
  P [] -> emits P m -> emits P (if b then m else ret tt).
Proof.
  intros Hnil Hm. destruct b; [ exact Hm | ].
  intro w. exists []. now rewrite app_nil_r.
Qed.

Lemma steps_app (a b : list event) :
  steps (a ++ b) = (steps a ++ steps b)%list.
Proof. apply flat_map_app. Qed.

Lemma steps_blocks (ip : string) (prs : list (Z * Z)) :
  forall timeout,
    steps (loop_blocks ip timeout prs) = repeat 2%nat (3 * List.length prs).
Proof.
  induction prs as [ | pr prs IH ]; intro timeout; [ reflexivity | ].
  cbn [loop_blocks]. rewrite steps_app, IH.
  replace (3 * List.length (pr :: prs))%nat
    with (3 + 3 * List.length prs)%nat by (cbn [List.length]; lia).
  reflexivity.
Qed.

Section StepOrder.

Variable env : Env.

Lemma print_no_step (s : string) : emits (fun seg => steps seg = []) (print s).
Proof. intro w. now exists [ Stdout (s ++ nl) ]. Qed.

Lemma resolve_host_no_step (hostname : string) :
  emits (fun seg => steps seg = []) (resolve_host env hostname).
Proof.
  intro w. rewrite resolve_host_eq. now eexists [ _ ].
Qed.

Lemma ping_host_step (host : string) : emits (step_once 1) (ping_host env host).
Proof.
  intro w. rewrite ping_host_eq. cbv zeta.
  destruct (check_output env _ _) as [ output | [] ];
    (eexists; split; [ reflexivity | ]);
    exists 1%nat; split; (lia || reflexivity).
Qed.

Lemma traceroute_step (host : string) :
  emits (step_once 3) (traceroute env host).
Proof.
  intro w. rewrite traceroute_eq. cbv zeta.
  destruct (gethostbyname env (trace w) host) as [ ip | [] ];
    try (eexists; split; [ reflexivity | ];
         exists 0%nat; split; (lia || reflexivity)).
  destruct (String.eqb ip "");
    [ eexists; split; [ reflexivity | ];
      exists 0%nat; split; (lia || reflexivity) | ].
  destruct (popen env _ _) as [ lines | [] ];
    (eexists; split; [ reflexivity | ]);
    exists 1%nat; (split; [ lia | ]);
    rewrite ?steps_app; try reflexivity.
  cbn [steps flat_map app].
  induction lines as [ | l lines IH ]; [ reflexivity | exact IH ].
Qed.

Lemma scan_ports_step (host ports : string) :
  emits (step_only 2) (scan_ports env host ports).
Proof.
  intro w. rewrite scan_ports_eq. cbv zeta.
  destruct (gethostbyname env (trace w) host) as [ ip | [] ];
    try (eexists; split; [ reflexivity | ]; now exists 0%nat).
  destruct (String.eqb ip "");
    [ eexists; split; [ reflexivity | ]; now exists 0%nat | ].
  destruct (parse_ports ports) as [ port_list | e ];
    [ | eexists; split; [ reflexivity | ]; now exists 0%nat ].
  match goal with
  | |- context [ scan_loop env ip port_list [] ?w1 ] =>
      destruct (scan_loop_any env ip port_list [] w1)
        as (prs & tail & Htrace & _ & Htail);
      destruct (scan_loop env ip port_list [] w1)
        as [ [ open_ports | e ] w2 ]
  end;
    cbn [fst snd trace default_timeout] in Htrace, Htail |- *;
    rewrite Htrace, <- ?app_assoc.
  - subst tail.
    eexists. split; [ reflexivity | ].
    exists (3 * List.length prs)%nat.
    rewrite !steps_app, steps_blocks. cbn. now rewrite app_nil_r.
  - destruct Htail as [ t -> ].
    eexists. split; [ reflexivity | ].
    exists (3 * List.length prs + 1)%nat.
    rewrite !steps_app, steps_blocks, repeat_app. reflexivity.
Qed.

Lemma in_step_order_nil : in_step_order [].
Proof. exists 0%nat, 0%nat, 0%nat. repeat split; lia. Qed.

(** Three computations that stay within their step, one after the
    other. *)
Lemma three_steps (m1 m2 m3 : M unit) :
  emits (step_once 1) m1 ->
  emits (step_only 2) m2 ->
  emits (step_once 3) m3 ->
  emits in_step_order (m1 ;; m2 ;; m3).
Proof.
  intros H1 H2 H3.
  apply (emits_seq (step_once 1)
           (fun seg => exists b c, (c <= 1)%nat
              /\ steps seg = (repeat 2 b ++ repeat 3 c)%nat%list)
           in_step_order); [ exact H1 | | | ].
  - intros _.
    apply (emits_seq (step_only 2) (step_once 3)); [ exact H2 | | | ].
    + intros _. exact H3.
    + exists 0%nat. split; [ lia | reflexivity ].
    + intros s2 s3 [ b Hb ] (c & Hc & Hs3).
      exists b, c. split; [ exact Hc | ].
      now rewrite steps_app, Hb, Hs3.
  - exists 0%nat, 0%nat. split; [ lia | reflexivity ].
  - intros s1 s23 (a & Ha & Hs1) (b & c & Hc & Hs23).
    exists a, b, c. repeat split; try assumption.
    now rewrite steps_app, Hs1, Hs23.
Qed.

End StepOrder.

(** X13. Whatever the flags, the environment and the point at which
    something may raise, the steps of a run come in one order: the ping
    process first, then the sockets of the scan, then the traceroute
    process; no more than one ping and one traceroute process are
    started, and nothing is pinged once the scan has begun. *)
Theorem steps_run_in_a_fixed_order (env : Env) (args : Namespace) (w : World) :
  exists seg : list event,
    trace (snd (main_args env args w)) = (trace w ++ seg)%list /\
    exists a b c : nat,
      (a <= 1)%nat /\ (c <= 1)%nat
      /\ steps seg = (repeat 1 a ++ repeat 2 b ++ repeat 3 c)%nat%list.
Proof.
  revert w. change (emits in_step_order (main_args env args)).
  assert (Hpre : forall s1 s2 : list event,
            steps s1 = [] -> in_step_order s2 -> in_step_order (s1 ++ s2)).
  { intros s1 s2 H1 (a & b & c & Ha & Hc & H2).
    exists a, b, c. repeat split; try assumption.
    now rewrite steps_app, H1. }
  unfold main_args.
  apply (emits_seq (fun seg => steps seg = []) in_step_order);
    [ apply print_no_step | intros _ | apply in_step_order_nil | exact Hpre ].
  apply (emits_seq (fun seg => steps seg = []) in_step_order);
    [ apply resolve_host_no_step | intro ip | apply in_step_order_nil
    | exact Hpre ].
  apply (emits_seq (fun seg => steps seg = []) in_step_order);
    [ apply emits_if; apply print_no_step | intros _
    | apply in_step_order_nil | exact Hpre ].
  destruct (args_all args).
  - apply three_steps;
      [ apply ping_host_step | apply scan_ports_step | apply traceroute_step ].
  - apply three_steps.
    + apply emits_optional; [ | apply ping_host_step ].
      exists 0%nat. split; [ lia | reflexivity ].
    + apply emits_optional; [ | apply scan_ports_step ].
      now exists 0%nat.
    + apply emits_optional; [ | apply traceroute_step ].
      exists 0%nat. split; [ lia | reflexivity ].
Qed.

(** ** How often the resolver is called *)

Lemma completes_resolving_ret {A : Type} (a : A) :
  completes_resolving 0 (ret a).
Proof. intro w. exists a, []. cbn. now rewrite app_nil_r. Qed.

Lemma completes_resolving_print (s : string) : completes_resolving 0 (print s).
Proof. intro w. now exists tt, [ Stdout (s ++ nl) ]. Qed.

Lemma completes_resolving_bind {A B : Type} (n1 n2 : nat)
  (m : M A) (k : A -> M B) :
  completes_resolving n1 m ->
  (forall a, completes_resolving n2 (k a)) ->
  completes_resolving (n1 + n2) (bind m k).
Proof.
  intros Hm Hk w. unfold bind.
  destruct (Hm w) as (a & s1 & Hok & H1 & Hn1).
  destruct (m w) as [ r w1 ]. cbn [fst snd] in Hok, H1. subst r.
  destruct (Hk a w1) as (b & s2 & Hok2 & H2 & Hn2).
  exists b, (s1 ++ s2)%list.
  split; [ exact Hok2 | split ].
  - now rewrite H2, H1, app_assoc.
  - rewrite resolutions_app, length_app. lia.
Qed.

Lemma completes_resolving_optional (n : nat) (b : bool) (m : M unit) :
  completes_resolving n m ->
  completes_resolving (if b then n else 0) (if b then m else ret tt).
Proof.
  intro Hm. destruct b; [ exact Hm | apply completes_resolving_ret ].
Qed.

Lemma resolutions_blocks (ip : string) (prs : list (Z * Z)) :
  forall timeout, resolutions (loop_blocks ip timeout prs) = [].
Proof.
  induction prs as [ | pr prs IH ]; intro timeout; [ reflexivity | ].
  cbn [loop_blocks]. rewrite resolutions_app, IH. reflexivity.
Qed.

Lemma resolutions_map_Stdout (lines : list string) :
  resolutions (map Stdout lines) = [].
Proof. induction lines as [ | l lines IH ]; [ reflexivity | exact IH ]. Qed.

Section Resolutions.

Variable env : Env.
Hypothesis Htame : tame env.

Lemma resolve_host_resolves_once (hostname : string) :
  completes_resolving 1 (resolve_host env hostname).
Proof.
  intro w. rewrite resolve_host_eq. cbn [fst snd trace].
  destruct (gethostbyname env (trace w) hostname) as [ ip | e ] eqn:Hres.
  - now eexists _, [ _ ].
  - destruct Htame as [ Hgai _ ]. rewrite (Hgai _ _ _ Hres).
    now eexists _, [ _ ].
Qed.

Lemma ping_host_resolves_never (host : string) :
  completes_resolving 0 (ping_host env host).
Proof.
  intro w. rewrite ping_host_eq. cbv zeta.
  destruct (check_output env _ _) as [ output | e ] eqn:Hout.
  - exists tt. eexists. repeat split.
  - destruct Htame as ( _ & Hping & _ ).
    destruct (Hping _ _ _ Hout) as [ -> | -> ];
      exists tt; eexists; repeat split.
Qed.

Lemma traceroute_resolves_once (host : string) :
  completes_resolving 1 (traceroute env host).
Proof.
  intro w. rewrite traceroute_eq. cbv zeta.
  destruct (gethostbyname env (trace w) host) as [ ip | e ] eqn:Hres.
  - destruct (String.eqb ip "").
    + exists tt. eexists. repeat split.
    + destruct (popen env _ _) as [ lines | e ] eqn:Hout.
      * exists tt. eexists. split; [ reflexivity | split; [ reflexivity | ] ].
        rewrite !resolutions_app, resolutions_map_Stdout. reflexivity.
      * destruct Htame as ( _ & _ & Htr ). rewrite (Htr _ _ _ Hout).
        exists tt. eexists. repeat split.
  - destruct Htame as [ Hgai _ ]. rewrite (Hgai _ _ _ Hres).
    exists tt. eexists. repeat split.
Qed.

Lemma scan_ports_resolves_once (host ports : string) :
  well_formed ports = true ->
  completes_resolving 1 (scan_ports env host ports).
Proof.
  unfold well_formed. intros Hwf w.
  apply andb_prop in Hwf as [ _ Hports ].
  destruct (gethostbyname env (trace w) host) as [ ip | e ] eqn:Hres.
  - destruct (String.eqb_spec ip "") as [ -> | Hip ].
    + rewrite scan_ports_eq. cbv zeta. rewrite Hres.
      exists tt. eexists. repeat split.
    + destruct (parse_ports ports) as [ port_list | e ] eqn:Hparse;
        [ | discriminate ].
      destruct (scan_ports_ok env host ports ip port_list w
                  Hres Hip Hparse Hports)
        as (prs & t1 & t2 & _ & Hok & Htrace).
      exists tt. eexists. split; [ | split; [ exact Htrace | ] ].
      * destruct (fst (scan_ports env host ports w)) as [ [] | ];
          [ reflexivity | discriminate ].
      * unfold scan_events.
        rewrite !resolutions_app, resolutions_blocks. reflexivity.
  - destruct Htame as [ Hgai _ ]. pose proof (Hgai _ _ _ Hres) as ->.
    rewrite scan_ports_eq. cbv zeta. rewrite Hres.
    exists tt. eexists. repeat split.
Qed.

End Resolutions.

(** In a run whose steps all return, the host name is resolved once by
    [main] and once more by every scan and traceroute step that runs;
    ping never resolves. *)
Lemma main_args_completes_resolving (env : Env) (args : Namespace) :
  tame env ->
  args_all args = true
  \/ truthy (args_scan args) = false
  \/ well_formed (value (args_scan args)) = true ->
  completes_resolving (1 + resolving_steps args) (main_args env args).
Proof.
  intros Htame Hscan.
  change (1 + resolving_steps args)%nat
    with (0 + (1 + (0 + resolving_steps args)))%nat.
  unfold main_args, resolving_steps.
  apply completes_resolving_bind;
    [ apply completes_resolving_print | intros _ ].
  apply completes_resolving_bind;
    [ now apply resolve_host_resolves_once | intro ip ].
  apply completes_resolving_bind;
    [ destruct (truthy ip); apply completes_resolving_print | intros _ ].
  destruct (args_all args).
  - change 2%nat with (0 + (1 + 1))%nat.
    apply completes_resolving_bind;
      [ now apply ping_host_resolves_never | intros _ ].
    apply completes_resolving_bind;
      [ now apply scan_ports_resolves_once | intros _ ].
    now apply traceroute_resolves_once.
  - change ((if truthy (args_scan args) then 1 else 0)
            + (if args_traceroute args then 1 else 0))%nat
      with (0 + ((if truthy (args_scan args) then 1 else 0)
                 + (if args_traceroute args then 1 else 0)))%nat.
    apply completes_resolving_bind;
      [ destruct (args_ping args);
        [ now apply ping_host_resolves_never
        | apply completes_resolving_ret ]
      | intros _ ].
    apply completes_resolving_bind;
      [ | intros _; apply completes_resolving_optional;
          now apply traceroute_resolves_once ].
    destruct (truthy (args_scan args)); [ | apply completes_resolving_ret ].
    apply scan_ports_resolves_once; [ exact Htame | ].
    destruct Hscan as [ H | [ H | H ] ]; (discriminate || exact H).
Qed.

(** X12. In a run whose steps all return (an environment that raises
    only what the script catches, and a scan argument of plain entries
    that are all valid ports), the host name is resolved once by [main]
    and once more by every scan and traceroute step that runs: three
    times with [-a], otherwise once plus one for a non-empty [-s] plus
    one for [-t]; ping never resolves. *)
Theorem resolver_is_called_once_per_step
  (env : Env) (args : Namespace) (w : World) :
  tame env ->
  args_all args = true
  \/ truthy (args_scan args) = false
  \/ well_formed (value (args_scan args)) = true ->
  exists seg : list event,
    fst (main_args env args w) = Ok tt
    /\ trace (snd (main_args env args w)) = (trace w ++ seg)%list
    /\ List.length (resolutions seg) = (1 + resolving_steps args)%nat.
Proof.
  intros Htame Hscan.
  destruct (main_args_completes_resolving env args Htame Hscan w)
    as ([] & seg & Hok & Htrace & Hlen).
  exists seg. repeat split; assumption.
Qed.

Lemma lab_is_tame : tame Examples.lab.
Proof. repeat split; cbn; intros; discriminate. Qed.

(** The theorem on "-a" in the lab: three calls of the resolver. *)
Lemma resolver_is_called_once_per_step_witness :
  tame Examples.lab /\
  (args_all (mkNamespace "example.org" false None false true) = true
   \/ truthy (args_scan (mkNamespace "example.org" false None false true))
      = false
   \/ well_formed
        (value (args_scan (mkNamespace "example.org" false None false true)))
      = true) /\
  exists seg : list event,
    fst (main_args Examples.lab
           (mkNamespace "example.org" false None false true) fresh) = Ok tt
    /\ trace (snd (main_args Examples.lab
                     (mkNamespace "example.org" false None false true) fresh))
       = (trace fresh ++ seg)%list
    /\ List.length (resolutions seg)
       = (1 + resolving_steps
                (mkNamespace "example.org" false None false true))%nat.
Proof.
  assert (H2 : args_all (mkNamespace "example.org" false None false true)
               = true
               \/ truthy (args_scan
                            (mkNamespace "example.org" false None false true))
                  = false
               \/ well_formed
                    (value (args_scan
                              (mkNamespace "example.org" false None false
                                 true))) = true)
    by (left; reflexivity).
  split; [ exact lab_is_tame | split; [ exact H2 | ] ].
  exact (resolver_is_called_once_per_step Examples.lab
           (mkNamespace "example.org" false None false true) fresh
           lab_is_tame H2).
Defined.

(** ** Result lines name their port *)

Lemma string_length_app (a b : string) :
  String.length (a ++ b) = (String.length a + String.length b)%nat.
Proof.
  induction a as [ | c a IH ]; [ reflexivity | ].
  cbn. now rewrite IH.
Qed.

Lemma append_inv_tail (t : string) :
  forall a b : string, (a ++ t = b ++ t)%string -> a = b.
Proof.
  induction a as [ | c a IH ]; intros [ | d b ] H.
  - reflexivity.
  - apply (f_equal String.length) in H.
    cbn in H. rewrite string_length_app in H. lia.
  - apply (f_equal String.length) in H.
    cbn in H. rewrite string_length_app in H. lia.
  - cbn in H. injection H as -> H. now rewrite (IH b H).
Qed.

Lemma str_inj (p q : Z) : Py.str p = Py.str q -> p = q.
Proof.
  intro H.
  pose proof (int_str "" p ltac:(constructor)) as Hp.
  pose proof (int_str "" q ltac:(constructor)) as Hq.
  cbn [append] in Hp, Hq. rewrite H in Hp. congruence.
Qed.

Ltac strip_prefix H :=
  repeat match type of H with
         | String _ _ = String _ _ => injection H as H
         end.

(** X11. A result line tells which port it is about and whether the
    port was found open: two probes print the same line only if they are
    of the same port and agree on Open or Closed. *)
Theorem result_line_names_its_port (port port' errno errno' : Z) :
  status_line (port, errno) = status_line (port', errno') ->
  port = port' /\ (errno =? 0) = (errno' =? 0).
Proof.
  unfold status_line, msg_open, msg_closed, Colors.GREEN, Colors.ENDC,
    Colors.ESC.
  cbn [fst snd].
  destruct (errno =? 0), (errno' =? 0); cbn [append]; intro H;
    try discriminate; strip_prefix H; (split; [ | reflexivity ]);
    rewrite !string_app_assoc in H;
    apply append_inv_tail in H; now apply str_inj.
Qed.

(** The theorem on port 443 refusing once and timing out once: the same
    Closed line. *)
Lemma result_line_names_its_port_witness :
  status_line (443, Errno.ECONNREFUSED) = status_line (443, Errno.EAGAIN) /\
  443 = 443 /\ (Errno.ECONNREFUSED =? 0) = (Errno.EAGAIN =? 0).
Proof.
  assert (H : status_line (443, Errno.ECONNREFUSED)
              = status_line (443, Errno.EAGAIN)) by reflexivity.
  split; [ exact H | ].
  exact (result_line_names_its_port 443 443 Errno.ECONNREFUSED Errno.EAGAIN H).
Defined.

(** * Who resolves the host name *)






